(** * Token remover and attachment rule of the bot: a shallow embedding

    The development follows [bot/cogs/token_remover.py] and
    [bot/rules/attachments.py].  Python values are modelled as follows.

    - [str] is a list of Unicode code points ([N]); [bytes] is a list of
      byte values ([N], each below 256 where it matters).
    - A Python call that may raise is a [result]: [Ok v] when it returns
      [v], [Raise e] when the exception [e] leaves it.  [try_except]
      is the [try: ... except (classes): ...] statement, with Python's
      subclass test on exception classes.
    - The coroutines of the cog run in [Bot]: they read the answers of the
      collaborators from a [World] and append every call they make to a
      trace of [event]s.
    - Library functions the code calls ([re], [base64], [binascii],
      [bytes.decode], [int.from_bytes], [str.format]) are modelled from
      CPython 3.8, the interpreter the bot ran on, for the part of their
      behaviour the cog can reach; each definition says what it covers.
    - [log.debug] lines of the two pure validators only reach the logging
      module and are left out; those of [take_action] are kept as events. *)

From Stdlib Require Import NArith ZArith Ascii String DecimalString.
From stdpp Require Import base tactics option list numbers strings gmap.

(** ** Strings and bytes *)

Abbreviation codepoint := N (only parsing).
Definition str := list codepoint.
Definition bytes := list N.

(** A string literal of the source, as a [str]. *)
Definition pystr (s : string) : str :=
  map N_of_ascii (list_ascii_of_string s).
Arguments pystr s%_string.

(** [str(n)] and [format(n)] of an [int]. *)
Definition str_of_int (n : Z) : str :=
  pystr (NilZero.string_of_int (Z.to_int n)).

(** ['x' * n]. *)
Definition str_mul (c : str) (n : nat) : str := concat (replicate n c).

(** ** Exceptions *)

Inductive exn : Type :=
| ValueError
| BinasciiError        (* binascii.Error, a ValueError *)
| UnicodeDecodeError   (* a UnicodeError, itself a ValueError *)
| UnicodeEncodeError
| KeyError
| TypeError
| AttributeError
| HTTPException        (* discord.HTTPException *)
| NotFound             (* discord.NotFound, an HTTPException *)
| Forbidden            (* discord.Forbidden, an HTTPException *)
| OtherError (name : string).

#[global] Instance exn_eq_dec : EqDecision exn.
Proof. solve_decision. Defined.

(** The direct base class, where it is one of the classes above. *)
Definition exn_base (e : exn) : option exn :=
  match e with
  | BinasciiError | UnicodeDecodeError | UnicodeEncodeError => Some ValueError
  | NotFound | Forbidden => Some HTTPException
  | _ => None
  end.

(** [isinstance(e, cls)]: the hierarchy above has depth two. *)
Definition exn_isinstance (e cls : exn) : bool :=
  bool_decide (e = cls) || bool_decide (exn_base e = Some cls).

Inductive result (A : Type) : Type :=
| Ok (a : A)
| Raise (e : exn).
Arguments Ok {A} a.
Arguments Raise {A} e.

#[global] Instance result_ret : MRet result := fun A a => Ok a.
#[global] Instance result_bind : MBind result := fun A B f m =>
  match m with
  | Ok a => f a
  | Raise e => Raise e
  end.

(** [try: body except (classes): handler]. *)
Definition try_except {A} (body : result A) (classes : list exn)
    (handler : exn -> result A) : result A :=
  match body with
  | Ok a => Ok a
  | Raise e => if existsb (exn_isinstance e) classes then handler e else Raise e
  end.

Definition returns {A} (r : result A) : Prop := exists a, r = Ok a.

(** ** Constants of the module *)

Definition DISCORD_EPOCH : Z := 1420070400.
Definition TOKEN_EPOCH : Z := 1293840000.

(** ** [bot.utils.pad_base64] *)

(** Modelled from the spec: [bot/utils] is not among the sources.  The
    helper appends [=] characters until the length is a multiple of 4 and
    leaves an aligned string unchanged. *)
Definition pad_base64 (data : str) : str :=
  data ++ str_mul (pystr "=") ((4 - length data mod 4) mod 4).

(** ** [binascii.a2b_base64] and [base64.urlsafe_b64decode] *)

Module Base64.
Local Open Scope N_scope.

Definition BASE64_PAD : N := 61.

(** [table_a2b_base64] of [Modules/binascii.c]: the six-bit value of a
    character of the standard alphabet; the pad character is entered
    with value 0, every other character is invalid. *)
Definition table_a2b_base64 (c : N) : option N :=
  if (65 <=? c) && (c <=? 90) then Some (c - 65)
  else if (97 <=? c) && (c <=? 122) then Some (c - 71)
  else if (48 <=? c) && (c <=? 57) then Some (c + 4)
  else if c =? 43 then Some 62
  else if c =? 47 then Some 63
  else if c =? BASE64_PAD then Some 0
  else None.

(** [binascii_find_valid(s, slen, num)]: the [num+1]-th character of [s]
    that is valid for base64, if any. *)
Fixpoint binascii_find_valid (s : bytes) (num : nat) : option N :=
  match s with
  | [] => None
  | c :: s' =>
      if (c <=? 127) && bool_decide (is_Some (table_a2b_base64 (N.land c 127)))
      then match num with
           | O => Some c
           | S num' => binascii_find_valid s' num'
           end
      else binascii_find_valid s' num
  end.

Record a2b_state : Type := A2B {
  leftbits : N;
  leftchar : N;
  quad_pos : N;
  bin_data : bytes
}.

Definition a2b_init : a2b_state := A2B 0 0 0 [].

(** The [for] loop of [binascii_a2b_base64_impl]; [ascii_data] is the
    input from the current character on. *)
Fixpoint a2b_loop (ascii_data : bytes) (st : a2b_state) : a2b_state :=
  match ascii_data with
  | [] => st
  | this_ch :: rest =>
      if (127 <? this_ch) || (this_ch =? 13) || (this_ch =? 10) || (this_ch =? 32)
      then a2b_loop rest st
      else if this_ch =? BASE64_PAD then
        if (quad_pos st <? 2)
           || ((quad_pos st =? 2)
               && negb (bool_decide (binascii_find_valid ascii_data 1 = Some BASE64_PAD)))
        then a2b_loop rest st
        else A2B 0 (leftchar st) (quad_pos st) (bin_data st)
      else
        match table_a2b_base64 this_ch with
        | None => a2b_loop rest st
        | Some v =>
            let quad_pos' := N.land (quad_pos st + 1) 3 in
            let leftchar' := N.lor (N.shiftl (leftchar st) 6) v in
            let leftbits' := leftbits st + 6 in
            if 8 <=? leftbits' then
              let leftbits'' := leftbits' - 8 in
              a2b_loop rest
                (A2B leftbits''
                     (N.land leftchar' (N.shiftl 1 leftbits'' - 1))
                     quad_pos'
                     (bin_data st ++ [N.land (N.shiftr leftchar' leftbits'') 255]))
            else
              a2b_loop rest (A2B leftbits' leftchar' quad_pos' (bin_data st))
        end
  end.

(** [binascii.a2b_base64(data)]: bits left over after the loop are an
    error (["Incorrect padding"] or the invalid-length message, both a
    [binascii.Error]). *)
Definition a2b_base64 (data : bytes) : result bytes :=
  let st := a2b_loop data a2b_init in
  if leftbits st =? 0 then Ok (bin_data st) else Raise BinasciiError.

(** [base64._bytes_from_decode_data] on a [str]: [s.encode('ascii')],
    with the [UnicodeEncodeError] turned into a [ValueError]. *)
Definition bytes_from_decode_data (s : str) : result bytes :=
  if forallb (fun c => c <? 128) s then Ok s else Raise ValueError.

(** [bytes.maketrans(b'-_', b'+/')]. *)
Definition urlsafe_decode_translation (b : N) : N :=
  if b =? 45 then 43 else if b =? 95 then 47 else b.

(** [base64.b64decode(s)] with the defaults [altchars=None] and
    [validate=False]. *)
Definition b64decode (s : bytes) : result bytes := a2b_base64 s.

Definition urlsafe_b64decode (s : str) : result bytes :=
  s ← bytes_from_decode_data s;
  b64decode (map urlsafe_decode_translation s).
End Base64.

(** ** [int.from_bytes], [bytes.decode], [str.isascii], [str.isdigit], [int] *)

(** [int.from_bytes(b, byteorder="big")], unsigned. *)
Definition int_from_bytes_big (b : bytes) : Z :=
  fold_left (fun acc x => (acc * 256 + Z.of_N x)%Z) b 0%Z.

Module Utf8.
Local Open Scope N_scope.

Definition cont (b : N) : bool := (128 <=? b) && (b <=? 191).
Definition between (lo hi b : N) : bool := (lo <=? b) && (b <=? hi).
Definition low6 (b : N) : N := N.land b 63.

(** [bytes.decode('utf-8')] with the default [errors='strict']: one to
    four bytes per code point, no overlong form, no surrogate, nothing
    above U+10FFFF. *)
Fixpoint decode (b : bytes) : result str :=
  match b with
  | [] => Ok []
  | b0 :: r0 =>
      if b0 <? 128 then s ← decode r0; Ok (b0 :: s)
      else if between 194 223 b0 then
        match r0 with
        | b1 :: r1 =>
            if cont b1
            then s ← decode r1;
                 Ok (N.lor (N.shiftl (N.land b0 31) 6) (low6 b1) :: s)
            else Raise UnicodeDecodeError
        | _ => Raise UnicodeDecodeError
        end
      else if between 224 239 b0 then
        match r0 with
        | b1 :: b2 :: r2 =>
            if between (if b0 =? 224 then 160 else 128)
                       (if b0 =? 237 then 159 else 191) b1 && cont b2
            then s ← decode r2;
                 Ok (N.lor (N.shiftl (N.land b0 15) 12)
                       (N.lor (N.shiftl (low6 b1) 6) (low6 b2)) :: s)
            else Raise UnicodeDecodeError
        | _ => Raise UnicodeDecodeError
        end
      else if between 240 244 b0 then
        match r0 with
        | b1 :: b2 :: b3 :: r3 =>
            if between (if b0 =? 240 then 144 else 128)
                       (if b0 =? 244 then 143 else 191) b1
               && cont b2 && cont b3
            then s ← decode r3;
                 Ok (N.lor (N.shiftl (N.land b0 7) 18)
                       (N.lor (N.shiftl (low6 b1) 12)
                          (N.lor (N.shiftl (low6 b2) 6) (low6 b3))) :: s)
            else Raise UnicodeDecodeError
        | _ => Raise UnicodeDecodeError
        end
      else Raise UnicodeDecodeError
  end.
End Utf8.

(** [str.isascii()]. *)
Definition str_isascii (s : str) : bool := forallb (fun c => c <? 128)%N s.

Definition is_ascii_digit (c : codepoint) : bool := ((48 <=? c) && (c <=? 57))%N.

(** [str.isdigit()] on a string of ASCII characters, the only strings the
    code calls it on ([and] does not evaluate it when [isascii()] is
    false): true when the string is not empty and every character is one
    of [0] to [9]. *)
Definition str_isdigit (s : str) : bool :=
  negb (bool_decide (s = [])) && forallb is_ascii_digit s.

(** The value of a string of decimal digits. *)
Definition int_of_digits (s : str) : Z :=
  fold_left (fun acc c => (acc * 10 + (Z.of_N c - 48))%Z) s 0%Z.

(** [int(string)] for a string of ASCII digits, in base 10 and with no
    limit on the number of digits: the source sets none, and the limit
    that later CPython releases put on such conversions is a setting of
    the interpreter, left out here.  On other
    strings the model raises [ValueError]; Python's [int] also reads a
    sign, blanks and underscores, which [extract_user_id] never passes. *)
Definition py_int (s : str) : result Z :=
  if str_isdigit s then Ok (int_of_digits s) else Raise ValueError.

(** Truth value of an [Optional[int]]. *)
Definition truthy_opt_int (o : option Z) : bool :=
  match o with
  | None => false
  | Some n => negb (n =? 0)%Z
  end.

(** ** The validators of [TokenRemover] *)

Definition extract_user_id (b64_content : str) : result (option Z) :=
  let b64_content := pad_base64 b64_content in
  try_except
    (decoded_bytes ← Base64.urlsafe_b64decode b64_content;
     string ← Utf8.decode decoded_bytes;
     if negb (str_isascii string && str_isdigit string) then Ok None
     else n ← py_int string; Ok (Some n))
    [BinasciiError; ValueError]
    (fun _ => Ok None).

Definition is_valid_user_id (b64_content : str) : result bool :=
  decoded_id ← extract_user_id b64_content;
  if negb (truthy_opt_int decoded_id) then Ok false else Ok true.

(** The handler of the [try] statement returns [False] from the function;
    [None] below stands for that early return. *)
Definition is_valid_timestamp (b64_content : str) : result bool :=
  let b64_content := pad_base64 b64_content in
  decoded ←
    try_except
      (decoded_bytes ← Base64.urlsafe_b64decode b64_content;
       Ok (Some (int_from_bytes_big decoded_bytes)))
      [BinasciiError; ValueError]
      (fun _ => Ok None);
  match decoded with
  | None => Ok false
  | Some timestamp =>
      if (timestamp + TOKEN_EPOCH >=? DISCORD_EPOCH)%Z then Ok true else Ok false
  end.

(** ** Regular expressions: the part of [re] that [TOKEN_RE] uses *)

Module Re.
(** Patterns built from an escaped literal, a greedy [+] over a
    character set, a capturing group and concatenation.  No pattern of
    this grammar matches the empty string. *)
Inductive regex : Type :=
| Lit (c : codepoint)
| PlusSet (cls : codepoint -> bool)
| Group (r : regex)
| Cat (r1 r2 : regex).

(** [[set]+]: take one character of the set, then first try to take
    more; when the rest of the pattern fails after a longer run, fall
    back to the shorter one. *)
Fixpoint greedy_plus {R} (cls : codepoint -> bool) (s : str)
    (k : str -> option R) : option R :=
  match s with
  | c :: s' =>
      if cls c then
        match greedy_plus cls s' k with
        | Some r => Some r
        | None => k s'
        end
      else None
  | [] => None
  end.

(** The backtracking matcher, anchored at the head of [s]: [k] is the
    rest of the pattern, called with the text that remains and the
    groups closed so far.  Groups are numbered as they close, which is
    the order of their opening parentheses when none is nested. *)
Fixpoint run {R} (r : regex) (s : str) (groups : list str)
    (k : str -> list str -> option R) : option R :=
  match r with
  | Lit c =>
      match s with
      | c' :: s' => if (c' =? c)%N then k s' groups else None
      | [] => None
      end
  | PlusSet cls => greedy_plus cls s (fun s' => k s' groups)
  | Group r' =>
      run r' s groups
        (fun s' groups' => k s' (groups' ++ [take (length s - length s') s]))
  | Cat r1 r2 =>
      run r1 s groups (fun s' groups' => run r2 s' groups' k)
  end.

(** [pattern.match] at the head of [s]: [match.groups()] and the text
    after [match.end()]. *)
Definition match_here (r : regex) (s : str) : option (list str * str) :=
  run r s [] (fun s' groups => Some (groups, s')).

(** The scan of [pattern.finditer]: try the current position; after a
    match go on where it ended, otherwise one character further. *)
Fixpoint scan (fuel : nat) (r : regex) (s : str) : list (list str) :=
  match fuel with
  | O => []
  | S fuel' =>
      match match_here r s with
      | Some (groups, rest) => groups :: scan fuel' r rest
      | None =>
          match s with
          | [] => []
          | _ :: s' => scan fuel' r s'
          end
      end
  end.

(** [[m.groups() for m in pattern.finditer(s)]]. *)
Definition finditer (r : regex) (s : str) : list (list str) :=
  scan (S (length s)) r s.
End Re.

(** [\w] under [re.ASCII]. *)
Definition is_word_ascii (c : codepoint) : bool :=
  ((65 <=? c) && (c <=? 90) || (97 <=? c) && (c <=? 122)
   || (48 <=? c) && (c <=? 57) || (c =? 95))%N.

(** The set [[\w\-=]]. *)
Definition is_token_char (c : codepoint) : bool :=
  (is_word_ascii c || (c =? 45) || (c =? 61))%N.

Definition DOT : codepoint := 46%N.

(** [TOKEN_RE = re.compile(r"([\w\-=]+)\.([\w\-=]+)\.([\w\-=]+)", re.ASCII)]. *)
Definition TOKEN_RE : Re.regex :=
  Re.Cat (Re.Group (Re.PlusSet is_token_char))
    (Re.Cat (Re.Lit DOT)
       (Re.Cat (Re.Group (Re.PlusSet is_token_char))
          (Re.Cat (Re.Lit DOT)
             (Re.Group (Re.PlusSet is_token_char))))).

(** ** [Token] *)

Record Token : Type := mkToken {
  user_id : str;
  timestamp : str;
  hmac : str
}.

(** [Token] applied to the unpacked [match.groups()]: a [NamedTuple] of
    three fields takes exactly three arguments. *)
Definition Token_of_groups (groups : list str) : result Token :=
  match groups with
  | [a; b; c] => Ok (mkToken a b c)
  | _ => Raise TypeError
  end.

(** ** The objects of discord.py, by the attributes the code reads *)

Record User : Type := mkUser {
  u_id : Z;
  u_bot : bool;
  u_mention : str;
  u_str : str;            (* str(user) *)
  u_avatar_png : str      (* avatar_url_as(static_format="png") *)
}.

(** [User.__eq__] and [Member.__eq__] compare the ids. *)
Definition user_eqb (a b : User) : bool := (u_id a =? u_id b)%Z.

Record Channel : Type := mkChannel {
  ch_id : Z;
  ch_mention : str
}.

Record Guild : Type := mkGuild {
  g_id : Z;
  g_members : gmap Z User
}.

(** [guild.get_member(user_id)]: a lookup by id; [None] is no key. *)
Definition get_member (g : Guild) (user_id : option Z) : option User :=
  match user_id with
  | Some n => g_members g !! n
  | None => None
  end.

Record Attachment : Type := mkAttachment {
  att_id : Z;
  att_filename : str
}.

Record Message : Type := mkMessage {
  m_id : Z;
  m_content : str;
  m_author : User;
  m_channel : Channel;
  m_guild : option Guild;
  m_attachments : list Attachment
}.

(** ** [TokenRemover.find_token_in_message] *)

(** The [for] loop over the matches, with its early [return]. *)
Fixpoint find_token_loop (matches : list (list str)) : result (option Token) :=
  match matches with
  | [] => Ok None
  | groups :: rest =>
      token ← Token_of_groups groups;
      valid_id ← is_valid_user_id (user_id token);
      valid ← (if valid_id : bool then is_valid_timestamp (timestamp token)
               else Ok false);
      if valid : bool then Ok (Some token) else find_token_loop rest
  end.

Definition find_token_in_message (msg : Message) : result (option Token) :=
  find_token_loop (Re.finditer TOKEN_RE (m_content msg)).

(** ** [str.format] with keyword arguments *)

Definition LBRACE : codepoint := 123%N.
Definition RBRACE : codepoint := 125%N.

Definition kwargs_lookup (name : str) (kwargs : list (str * str)) : result str :=
  match List.find (fun kv => bool_decide (kv.1 = name)) kwargs with
  | Some kv => Ok kv.2
  | None => Raise KeyError
  end.

(** [template.format] with keyword arguments, for templates whose
    replacement fields are plain names, as all templates of the module are; the values are given
    already converted by [str].  [field] is [Some name] while the scan is
    inside a replacement field.  Doubled braces are literal braces; a
    lone brace is a [ValueError], an unknown name a [KeyError]. *)
Fixpoint format_go (template : str) (field : option str)
    (kwargs : list (str * str)) : result str :=
  match template, field with
  | [], None => Ok []
  | [], Some _ => Raise ValueError
  | c :: t, Some name =>
      if (c =? RBRACE)%N then
        v ← kwargs_lookup name kwargs;
        s ← format_go t None kwargs;
        Ok (v ++ s)
      else format_go t (Some (name ++ [c])) kwargs
  | c :: t, None =>
      if (c =? LBRACE)%N then
        match t with
        | c2 :: t2 =>
            if (c2 =? LBRACE)%N
            then s ← format_go t2 None kwargs; Ok (LBRACE :: s)
            else format_go t (Some []) kwargs
        | [] => Raise ValueError
        end
      else if (c =? RBRACE)%N then
        match t with
        | c2 :: t2 =>
            if (c2 =? RBRACE)%N
            then s ← format_go t2 None kwargs; Ok (RBRACE :: s)
            else Raise ValueError
        | [] => Raise ValueError
        end
      else s ← format_go t None kwargs; Ok (c :: s)
  end.

Definition str_format (template : str) (kwargs : list (str * str)) : result str :=
  format_go template None kwargs.

(** ** The message templates *)

Definition NL : str := [10%N].

Definition LOG_MESSAGE : str :=
  pystr "Censored a seemingly valid token sent by {author} (`{author_id}`) in {channel}, "
  ++ pystr "token was `{user_id}.{timestamp}.{hmac}`".

Definition DECODED_LOG_MESSAGE : str :=
  pystr "The token user_id decodes into {user_id}.".

Definition USER_TOKEN_MESSAGE : str :=
  pystr "The token user_id decodes into {user_id}, "
  ++ pystr "which matches `{user_name}` and means this is a valid USER token.".

Definition DELETION_MESSAGE_TEMPLATE : str :=
  pystr "Hey {mention}! I noticed you posted a seemingly valid Discord API "
  ++ pystr "token in your message and have removed your message. "
  ++ pystr "This means that your token has been **compromised**. "
  ++ pystr "Please change your token **immediately** at: "
  ++ pystr "<https://discordapp.com/developers/applications/me>" ++ NL ++ NL
  ++ pystr "Feel free to re-post it with the token removed. "
  ++ pystr "If you believe this was a mistake, please let us know!".

(** ** [TokenRemover.format_log_message] *)

(** [str(user_id)] where [take_action] passes the [Optional[int]] that
    [extract_user_id] returned. *)
Definition str_of_opt_int (o : option Z) : str :=
  match o with
  | Some n => str_of_int n
  | None => pystr "None"
  end.

(** Truth value of an [Optional[str]]. *)
Definition truthy_opt_str (o : option str) : bool :=
  match o with
  | Some (_ :: _) => true
  | _ => false
  end.

Definition format_log_message (msg : Message) (token : Token)
    (user_id_ : option Z) (user_name : option str) : result str :=
  message ← str_format LOG_MESSAGE
    [ (pystr "author", u_str (m_author msg));
      (pystr "author_id", str_of_int (u_id (m_author msg)));
      (pystr "channel", ch_mention (m_channel msg));
      (pystr "user_id", user_id token);
      (pystr "timestamp", timestamp token);
      (pystr "hmac", str_mul (pystr "x") (length (hmac token))) ];
  more ←
    (if truthy_opt_str user_name then
       str_format USER_TOKEN_MESSAGE
         [ (pystr "user_id", str_of_opt_int user_id_);
           (pystr "user_name", default [] user_name) ]
     else
       str_format DECODED_LOG_MESSAGE
         [ (pystr "user_id", str_of_opt_int user_id_) ]);
  Ok (message ++ NL ++ more).

(** ** Collaborators, events and the [Bot] monad *)

(** [bot.constants.Event]: the member the cog names, and the others. *)
Inductive Event : Type :=
| Event_message_delete
| Event_other (name : string).

(** The values of [bot.constants] the cog reads; the module is not among
    the sources, and the values come from the bot's configuration. *)
Record Constants : Type := mkConstants {
  Icons_token_removed : str;
  Colours_soft_red : Z;
  Channels_mod_alerts : Z
}.

(** The keyword arguments of [ModLog.send_log_message]. *)
Record LogMessageArgs : Type := mkLogMessageArgs {
  lm_icon_url : str;
  lm_colour : Z;
  lm_title : str;
  lm_text : str;
  lm_thumbnail : str;
  lm_channel_id : Z;
  lm_ping_everyone : bool
}.

(** A call the cog makes on a collaborator. *)
Inductive event : Type :=
| EIgnore (ev : Event) (id : Z)          (* mod_log.ignore(ev, id) *)
| EDelete (msg : Message)                (* await msg.delete() *)
| ESend (ch : Channel) (text : str)      (* await channel.send(text) *)
| EGetMember (g : Guild) (id : option Z) (* guild.get_member(id) *)
| ELogDebug (text : str)                 (* log.debug(text) *)
| ESendLogMessage (args : LogMessageArgs)
| EStatsIncr (name : str).               (* bot.stats.incr(name) *)

(** How the collaborators answer: each call returns or raises.  The cog
    reaches the mod log through [bot.get_cog]; a cog that is not loaded
    shows as the call raising [AttributeError]. *)
Record World : Type := mkWorld {
  w_constants : Constants;
  w_ignore : Event -> Z -> result unit;
  w_delete : Message -> result unit;
  w_send : Channel -> str -> result unit;
  w_send_log_message : LogMessageArgs -> result unit;
  w_stats_incr : str -> result unit
}.

(** A coroutine of the cog: given the world and the calls made so far, the
    calls made when it ends and how it ends. *)
Definition Bot (A : Type) : Type := World -> list event -> list event * result A.

#[global] Instance Bot_ret : MRet Bot := fun A a _ tr => (tr, Ok a).
#[global] Instance Bot_bind : MBind Bot := fun A B f m w tr =>
  match m w tr with
  | (tr', Ok a) => f a w tr'
  | (tr', Raise e) => (tr', Raise e)
  end.

(** A pure computation inside a coroutine. *)
Definition lift {A} (r : result A) : Bot A := fun _ tr => (tr, r).

(** A call on a collaborator: recorded, then answered by the world. *)
Definition call {A} (e : event) (answer : World -> result A) : Bot A :=
  fun w tr => (tr ++ [e], answer w).

Definition constants : Bot Constants := fun w tr => (tr, Ok (w_constants w)).

(** [try: body except (classes): handler] around awaited calls. *)
Definition bot_try_except {A} (body : Bot A) (classes : list exn)
    (handler : exn -> Bot A) : Bot A :=
  fun w tr =>
    match body w tr with
    | (tr', Ok a) => (tr', Ok a)
    | (tr', Raise e) =>
        if existsb (exn_isinstance e) classes then handler e w tr'
        else (tr', Raise e)
    end.

(** ** [TokenRemover.take_action], [on_message] and [on_message_edit] *)

(** In [take_action] the [except NotFound] branch returns from the
    coroutine; [deleted] is false on that path and the rest is skipped. *)
Definition take_action (msg : Message) (found_token : Token) : Bot unit :=
  _ ← call (EIgnore Event_message_delete (m_id msg))
        (fun w => w_ignore w Event_message_delete (m_id msg));
  deleted ← bot_try_except
    (_ ← call (EDelete msg) (fun w => w_delete w msg); mret true)
    [NotFound]
    (fun _ =>
       _ ← call (ELogDebug (pystr "Failed to remove token in message "
                             ++ str_of_int (m_id msg)
                             ++ pystr ": message already deleted."))
             (fun _ => Ok tt);
       mret false);
  if deleted : bool then
    notice ← lift (str_format DELETION_MESSAGE_TEMPLATE
                     [ (pystr "mention", u_mention (m_author msg)) ]);
    _ ← call (ESend (m_channel msg) notice)
          (fun w => w_send w (m_channel msg) notice);
    user_id_ ← lift (extract_user_id (user_id found_token));
    guild ← lift (match m_guild msg with
                  | Some g => Ok g
                  | None => Raise AttributeError
                  end);
    user ← call (EGetMember guild user_id_)
             (fun _ => Ok (get_member guild user_id_));
    let user_name := u_str <$> user in
    log_message ← lift (format_log_message msg found_token user_id_ user_name);
    _ ← call (ELogDebug log_message) (fun _ => Ok tt);
    c ← constants;
    let args :=
      mkLogMessageArgs (Icons_token_removed c) (Colours_soft_red c)
        (pystr "Token removed!") log_message (u_avatar_png (m_author msg))
        (Channels_mod_alerts c) (bool_decide (is_Some user_name)) in
    _ ← call (ESendLogMessage args) (fun w => w_send_log_message w args);
    call (EStatsIncr (pystr "tokens.removed_tokens"))
      (fun w => w_stats_incr w (pystr "tokens.removed_tokens"))
  else mret tt.

Definition on_message (msg : Message) : Bot unit :=
  if negb (bool_decide (is_Some (m_guild msg))) || u_bot (m_author msg)
  then mret tt
  else
    found_token ← lift (find_token_in_message msg);
    match found_token with
    | Some token => take_action msg token
    | None => mret tt
    end.

Definition on_message_edit (before after : Message) : Bot unit :=
  on_message after.

(** ** [bot.rules.attachments.apply] *)

Module Attachments.
(** [config['max']]. *)
Definition config_get (config : gmap str Z) (key : str) : result Z :=
  match config !! key with
  | Some v => Ok v
  | None => Raise KeyError
  end.

(** The list [relevant_messages] of the source. *)
Definition relevant_messages (last_message : Message)
    (recent_messages : list Message) : list Message :=
  [last_message] ++
  List.filter
    (fun msg => user_eqb (m_author msg) (m_author last_message)
                && (0 <? length (m_attachments msg))%nat)
    recent_messages.

(** [sum(len(msg.attachments) for msg in relevant_messages)]. *)
Definition total_recent_attachments (relevant : list Message) : Z :=
  Z.of_nat (list_sum (map (fun msg => length (m_attachments msg)) relevant)).

(** The returned tuple: reason, members, messages. *)
Definition ViolationDescriptor : Type := str * list User * list Message.

Definition apply (last_message : Message) (recent_messages : list Message)
    (config : gmap str Z) : result (option ViolationDescriptor) :=
  let relevant := relevant_messages last_message recent_messages in
  let total := total_recent_attachments relevant in
  max ← config_get config (pystr "max");
  if (total >? max)%Z then
    max' ← config_get config (pystr "max");
    Ok (Some (pystr "sent " ++ str_of_int total
              ++ pystr " attachments in " ++ str_of_int max' ++ pystr "s",
              [m_author last_message],
              relevant))
  else Ok None.
End Attachments.

(** * Definitions used to state the properties *)

(** The value of the bytes read as a big-endian unsigned number: the
    first byte is the most significant. *)
Fixpoint big_endian_value (b : bytes) : Z :=
  match b with
  | [] => 0
  | x :: r => Z.of_N x * 256 ^ Z.of_nat (length r) + big_endian_value r
  end.

(** The value of decimal digits, the first the most significant. *)
Fixpoint decimal_value (s : str) : Z :=
  match s with
  | [] => 0
  | c :: r => (Z.of_N c - 48) * 10 ^ Z.of_nat (length r) + decimal_value r
  end.

(** A text made of ASCII digits: not empty, every character between [0]
    and [9]. *)
Definition ascii_digits (text : str) : Prop :=
  text <> [] /\ Forall (fun c => 48 <= c <= 57)%N text.

Section RunsDef.
Variable cls : codepoint -> bool.

(** The longest prefix of [s] inside the set, and what follows it. *)
Fixpoint run_of (s : str) : str :=
  match s with
  | c :: s' => if cls c then c :: run_of s' else []
  | [] => []
  end.

Fixpoint after_run (s : str) : str :=
  match s with
  | c :: s' => if cls c then after_run s' else s
  | [] => []
  end.

Definition head_in (s : str) : bool :=
  match s with
  | c :: _ => cls c
  | [] => false
  end.
End RunsDef.

(** The characters a part of a token is made of: [A-Z], [a-z], [0-9],
    [_], [-] and [=]. *)
Definition in_token_class (c : codepoint) : Prop :=
  ((65 <= c <= 90) \/ (97 <= c <= 122) \/ (48 <= c <= 57)
   \/ c = 95 \/ c = 45 \/ c = 61)%N.

(** A part of a token: a non-empty run of such characters. *)
Definition token_part (p : str) : Prop :=
  p <> [] /\ Forall in_token_class p.

(** The text [rest] does not go on with a character of the class. *)
Definition not_continued (rest : str) : Prop :=
  match rest with
  | c :: _ => ~ in_token_class c
  | [] => True
  end.

(** [s] reads [part1.part2.part3] followed by [rest]. *)
Definition shape (p1 p2 p3 rest s : str) : Prop :=
  s = p1 ++ [DOT] ++ p2 ++ [DOT] ++ p3 ++ rest /\
  token_part p1 /\ token_part p2 /\ token_part p3.

(** The pattern matches at the head of [s]. *)
Definition matches_here (s : str) : Prop :=
  exists p1 p2 p3 rest, shape p1 p2 p3 rest s.

(** The match at the head of [s] read off without backtracking. *)
Definition part (s : str) : option (str * str) :=
  if head_in is_token_char s
  then Some (run_of is_token_char s, after_run is_token_char s)
  else None.

Definition dot (s : str) : option str :=
  match s with
  | c :: s' => if (c =? DOT)%N then Some s' else None
  | [] => None
  end.

Definition parse3 (s : str) : option (list str * str) :=
  '(p1, r1) ← part s;
  r1' ← dot r1;
  '(p2, r2) ← part r1';
  r2' ← dot r2;
  '(p3, r3) ← part r2';
  Some ([p1; p2; p3], r3).

(** [match.groups()] of the match that gives the token. *)
Definition groups_of (t : Token) : list str := [user_id t; timestamp t; hmac t].

(** The structural candidates of a text, in the order of the scan: no
    match starts in [pre]; the first match reads [p1.p2.p3] with the last
    part as long as it can be; the other candidates are those of the text
    after it, so that candidates never overlap. *)
Inductive candidates : str -> list Token -> Prop :=
| candidates_nil s :
    (forall pre suf, s = pre ++ suf -> ~ matches_here suf) ->
    candidates s []
| candidates_cons pre p1 p2 p3 rest l s :
    s = pre ++ p1 ++ [DOT] ++ p2 ++ [DOT] ++ p3 ++ rest ->
    token_part p1 -> token_part p2 -> token_part p3 ->
    not_continued rest ->
    (forall pre1 suf, pre = pre1 ++ suf -> suf <> [] ->
       ~ matches_here (suf ++ p1 ++ [DOT] ++ p2 ++ [DOT] ++ p3 ++ rest)) ->
    candidates rest l ->
    candidates s (mkToken p1 p2 p3 :: l).

(** Both semantic checks pass. *)
Definition valid_token (t : Token) : Prop :=
  is_valid_user_id (user_id t) = Ok true /\
  is_valid_timestamp (timestamp t) = Ok true.

(** [r] is the first valid token of [l], or [None] when [l] has none. *)
Definition first_valid (l : list Token) (r : option Token) : Prop :=
  match r with
  | Some t =>
      exists before after,
        l = before ++ t :: after /\
        Forall (fun c => ~ valid_token c) before /\ valid_token t
  | None => Forall (fun c => ~ valid_token c) l
  end.

(** The text [needle] occurs in [hay]. *)
Definition contains (needle hay : str) : Prop :=
  exists pre post, hay = pre ++ needle ++ post.

(** The second line of the log message. *)
Definition log_note (user_id_ : option Z) (user_name : option str) : str :=
  if truthy_opt_str user_name then
    pystr "The token user_id decodes into " ++ str_of_opt_int user_id_
    ++ pystr ", which matches `" ++ default [] user_name
    ++ pystr "` and means this is a valid USER token."
  else
    pystr "The token user_id decodes into " ++ str_of_opt_int user_id_
    ++ pystr ".".

(** The log message, with [n] placeholder characters for the hmac. *)
Definition censored_log (msg : Message) (uid ts : str) (n : nat)
    (user_id_ : option Z) (user_name : option str) : str :=
  pystr "Censored a seemingly valid token sent by " ++ u_str (m_author msg)
  ++ pystr " (`" ++ str_of_int (u_id (m_author msg))
  ++ pystr "`) in " ++ ch_mention (m_channel msg)
  ++ pystr ", token was `" ++ uid ++ pystr "." ++ ts ++ pystr "."
  ++ replicate n 120%N ++ pystr "`" ++ NL ++ log_note user_id_ user_name.

(** The calls of [take_action] that follow the deletion. *)
Definition after_delete_step (e : event) : Prop :=
  match e with
  | ESend _ _ | EGetMember _ _ | ESendLogMessage _ | EStatsIncr _ => True
  | EIgnore _ _ | EDelete _ | ELogDebug _ => False
  end.

#[global] Instance User_eq_dec : EqDecision User.
Proof. solve_decision. Defined.
#[global] Instance Channel_eq_dec : EqDecision Channel.
Proof. solve_decision. Defined.
#[global] Instance Guild_eq_dec : EqDecision Guild.
Proof. solve_decision. Defined.
#[global] Instance Attachment_eq_dec : EqDecision Attachment.
Proof. solve_decision. Defined.
#[global] Instance Message_eq_dec : EqDecision Message.
Proof. solve_decision. Defined.

(** The messages the attachment rule looks at: the latest one, then those
    of the window by the same author (the same id) that carry an
    attachment, in the order of the window and as often as they occur. *)
Definition relevant_sequence (latest : Message) (window : list Message)
    : list Message :=
  latest ::
  filter (fun m => u_id (m_author m) = u_id (m_author latest)
                   /\ 0 < length (m_attachments m)) window.

(** The same messages as a set, each taken once. *)
Definition relevant_subset (latest : Message) (window : list Message)
    : list Message :=
  remove_dups (relevant_sequence latest window).

Definition attachment_count (msgs : list Message) : Z :=
  Z.of_nat (sum_list (map (fun m => length (m_attachments m)) msgs)).

(** * Sample data *)

Definition sample_author : User :=
  mkUser 42 false (pystr "<@42>") (pystr "bob#0001") (pystr "bob.png").

Definition sample_other_author : User :=
  mkUser 43 false (pystr "<@43>") (pystr "eve#0002") (pystr "eve.png").

Definition sample_bot : User :=
  mkUser 44 true (pystr "<@44>") (pystr "bot#0003") (pystr "bot.png").

Definition sample_channel : Channel := mkChannel 5 (pystr "<#5>").

Definition sample_guild : Guild := mkGuild 7 {[ 123%Z := sample_other_author ]}.

Definition sample_message (author : User) (guild : option Guild) (content : string)
    (attachments : nat) : Message :=
  mkMessage 1 (pystr content) author sample_channel guild
    (replicate attachments (mkAttachment 9 (pystr "a.png"))).

(** A text in which a call-like string comes before a token. *)
Definition sample_leak : Message :=
  sample_message sample_author (Some sample_guild)
    "message.channel.send MTIz.XsyRkw.abc-_=x" 0.

Definition sample_token : Token :=
  mkToken (pystr "MTIz") (pystr "XsyRkw") (pystr "abc-_=x").

Definition sample_call : Token :=
  mkToken (pystr "message") (pystr "channel") (pystr "send").

Definition sample_world (deletion : result unit) : World :=
  mkWorld (mkConstants (pystr "icon.png") 13458524 282146273)
    (fun _ _ => Ok tt) (fun _ => deletion) (fun _ _ => Ok tt)
    (fun _ => Ok tt) (fun _ => Ok tt).

Definition sample_config : gmap str Z := {[ pystr "max" := 5%Z ]}.

(** The messages of the example of the rule: [M0] with [n] attachments,
    [M1] with three by the same author, [M2] with one by another. *)
Definition sample_M0 (n : nat) : Message :=
  mkMessage 10 [] sample_author sample_channel (Some sample_guild)
    (replicate n (mkAttachment 9 (pystr "a.png"))).

Definition sample_M1 : Message :=
  mkMessage 11 [] sample_author sample_channel (Some sample_guild)
    (replicate 3 (mkAttachment 9 (pystr "a.png"))).

Definition sample_M2 : Message :=
  mkMessage 12 [] sample_other_author sample_channel (Some sample_guild)
    (replicate 1 (mkAttachment 9 (pystr "a.png"))).

(** A token whose hmac is made of the placeholder character, and a
    message that holds it. *)
Definition sample_x_token : Token :=
  mkToken (pystr "MTIz") (pystr "XsyRkw") (pystr "xxxx").

Definition sample_x_leak : Message :=
  sample_message sample_author (Some sample_guild) "MTIz.XsyRkw.xxxx" 0.

(** * Further definitions *)

(** [apply] reports a violation. *)
Definition is_violation (r : result (option Attachments.ViolationDescriptor)) : Prop :=
  exists d, r = Ok (Some d).

(** The reason string of a violation with the given sum and maximum. *)
Definition violation_reason (total max : Z) : str :=
  pystr "sent " ++ str_of_int total ++ pystr " attachments in "
  ++ str_of_int max ++ pystr "s".

(** The attachment total of the messages of [window] that count for
    [latest]: those of the same author. *)
Definition window_total (latest : Message) (window : list Message) : nat :=
  sum_list (map (fun m => length (m_attachments m))
              (filter (fun m => u_id (m_author m) = u_id (m_author latest)
                                /\ 0 < length (m_attachments m)) window)).

(** Every call on a collaborator returns. *)
Definition world_returns (w : World) : Prop :=
  (forall ev id, w_ignore w ev id = Ok tt) /\
  (forall m, w_delete w m = Ok tt) /\
  (forall ch text, w_send w ch text = Ok tt) /\
  (forall args, w_send_log_message w args = Ok tt) /\
  (forall name, w_stats_incr w name = Ok tt).

(** The exception [e] is the answer of some call on a collaborator. *)
Definition raised_by_world (w : World) (e : exn) : Prop :=
  (exists ev id, w_ignore w ev id = Raise e) \/
  (exists m, w_delete w m = Raise e) \/
  (exists ch text, w_send w ch text = Raise e) \/
  (exists args, w_send_log_message w args = Raise e) \/
  (exists name, w_stats_incr w name = Raise e).

(** The notice posted in the channel, for the mention of the author. *)
Definition deletion_notice (mention : str) : str :=
  pystr "Hey " ++ mention
  ++ pystr "! I noticed you posted a seemingly valid Discord API "
  ++ pystr "token in your message and have removed your message. "
  ++ pystr "This means that your token has been **compromised**. "
  ++ pystr "Please change your token **immediately** at: "
  ++ pystr "<https://discordapp.com/developers/applications/me>" ++ NL ++ NL
  ++ pystr "Feel free to re-post it with the token removed. "
  ++ pystr "If you believe this was a mistake, please let us know!".

(** The alert sent to the moderators for a log text. *)
Definition token_alert (c : Constants) (msg : Message) (text : str)
    (ping : bool) : LogMessageArgs :=
  mkLogMessageArgs (Icons_token_removed c) (Colours_soft_red c)
    (pystr "Token removed!") text (u_avatar_png (m_author msg))
    (Channels_mod_alerts c) ping.

Definition is_delete (e : event) : bool :=
  match e with
  | EDelete _ => true
  | _ => false
  end.

(** The number of dots in a text. *)
Definition dots (s : str) : nat :=
  length (List.filter (fun c => (c =? DOT)%N) s).

(** A text around a token, and a token behind two dotted words. *)
Definition sample_isolated : Message :=
  sample_message sample_author (Some sample_guild)
    "my token is MTIz.XsyRkw.abc-_=x !!" 0.

Definition sample_shadowed : Message :=
  sample_message sample_author (Some sample_guild)
    "x.y.MTIz.XsyRkw.abc-_=x" 0.

(** One turn of the loop of [a2b_base64] on a character of value [v]:
    the assignments the loop makes after the table lookup. *)
Definition a2b_step (v : N) (st : Base64.a2b_state) : Base64.a2b_state :=
  let quad_pos' := N.land (Base64.quad_pos st + 1) 3 in
  let leftchar' := N.lor (N.shiftl (Base64.leftchar st) 6) v in
  let leftbits' := (Base64.leftbits st + 6)%N in
  if (8 <=? leftbits')%N then
    Base64.A2B (leftbits' - 8)
      (N.land leftchar' (N.shiftl 1 (leftbits' - 8) - 1))
      quad_pos'
      (Base64.bin_data st ++ [N.land (N.shiftr leftchar' (leftbits' - 8)) 255])
  else Base64.A2B leftbits' leftchar' quad_pos' (Base64.bin_data st).

(** Between two characters the decoder holds [0], [6], [4] or [2] bits,
    by the position in the group of four. *)
Definition a2b_phase_ok (st : Base64.a2b_state) : Prop :=
  (Base64.quad_pos st < 4)%N /\
  Base64.leftbits st = ((6 * Base64.quad_pos st) mod 8)%N.

(** The characters of the URL-safe alphabet: letters, digits, [_], [-]. *)
Definition is_b64_char (c : codepoint) : bool :=
  is_word_ascii c || (c =? 45)%N.

(** A character the decoder takes as data, with its value. *)
Definition decodes_to (c : N) : option N :=
  let c' := Base64.urlsafe_decode_translation c in
  if (127 <? c')%N || (c' =? 13)%N || (c' =? 10)%N || (c' =? 32)%N then None
  else if (c' =? Base64.BASE64_PAD)%N then None
  else Base64.table_a2b_base64 c'.

(** The padding [pad_base64] appends, as a list of [=]. *)
Definition padding_of (n : nat) : str := replicate ((4 - n mod 4) mod 4) 61%N.

(** The character of a six-bit value in the URL-safe alphabet of
    RFC 4648: [A-Z], [a-z], [0-9], [-], [_]. *)
Definition b64_urlsafe_char (v : N) : codepoint :=
  (if v <? 26 then v + 65
   else if v <? 52 then v + 71
   else if v <? 62 then v - 4
   else if v =? 62 then 45
   else 95)%N.

(** URL-safe base64 without padding, the way the parts of a token are
    written: three bytes give four characters, a last group of one or
    two bytes gives two or three. *)
Fixpoint b64_encode (b : bytes) : str :=
  match b with
  | [] => []
  | [b0] => map b64_urlsafe_char [b0 / 4; (b0 mod 4) * 16]%N
  | [b0; b1] =>
      map b64_urlsafe_char
        [b0 / 4; (b0 mod 4) * 16 + b1 / 16; (b1 mod 16) * 4]%N
  | b0 :: b1 :: b2 :: r =>
      map b64_urlsafe_char
        [b0 / 4; (b0 mod 4) * 16 + b1 / 16; (b1 mod 16) * 4 + b2 / 64;
         b2 mod 64]%N
      ++ b64_encode r
  end.

(** The decoder state [st] is the given one, with one byte of output. *)
Definition a2b_state_is (st : Base64.a2b_state) (lb lc q byte : N) : bool :=
  (Base64.leftbits st =? lb)%N && (Base64.leftchar st =? lc)%N
  && (Base64.quad_pos st =? q)%N
  && match Base64.bin_data st with
     | [x] => (x =? byte)%N
     | _ => false
     end.

(** A text around a token written from an id and a timestamp: the digits
    [123] and the four bytes of [1590464915]. *)
Definition sample_genuine : Message :=
  sample_message sample_author (Some sample_guild)
    "key: MTIz.XsyRkw.abc-_=x (do not share)" 0.

(** * Properties *)

Ltac unfold_bind :=
  unfold mbind, mret, result_bind, result_ret in *.

(** ** The validators *)

Section Validators.
Implicit Types (fragment s : str) (b : bytes) (e : exn).

Lemma try_except_value_error {A} (body : result A) (h : exn -> result A) e :
  body = Raise e ->
  e = ValueError \/ e = BinasciiError \/ e = UnicodeDecodeError ->
  try_except body [BinasciiError; ValueError] h = h e.
Proof.
  intros -> [-> | [-> | ->]]; reflexivity.
Qed.

(** What [urlsafe_b64decode] raises is caught by the handlers. *)
Lemma urlsafe_b64decode_raises s e :
  Base64.urlsafe_b64decode s = Raise e -> e = ValueError \/ e = BinasciiError.
Proof.
  unfold Base64.urlsafe_b64decode, Base64.bytes_from_decode_data,
    Base64.b64decode, Base64.a2b_base64.
  unfold_bind. repeat case_match; intros; simplify_eq; auto.
Qed.

Lemma utf8_decode_raises b e :
  Utf8.decode b = Raise e -> e = UnicodeDecodeError.
Proof.
  remember (length b) as n eqn:Hn. revert b Hn e.
  induction n as [n IH] using lt_wf_ind. intros b Hn e.
  destruct b as [|b0 r0]; [discriminate|]. simpl in Hn. simpl.
  unfold_bind.
  repeat case_match; intros; simplify_eq; auto;
    match goal with
    | H : Utf8.decode ?r = Raise _ |- _ =>
        eapply (IH (length r)); [simpl; lia | reflexivity | exact H]
    end.
Qed.

Lemma py_int_digits s : str_isdigit s = true -> py_int s = Ok (int_of_digits s).
Proof. unfold py_int. intros ->. reflexivity. Qed.

(** The value of [extract_user_id], case by case. *)
Lemma extract_user_id_unfold fragment :
  extract_user_id fragment =
    match Base64.urlsafe_b64decode (pad_base64 fragment) with
    | Raise _ => Ok None
    | Ok decoded =>
        match Utf8.decode decoded with
        | Raise _ => Ok None
        | Ok text =>
            if str_isascii text && str_isdigit text
            then Ok (Some (int_of_digits text))
            else Ok None
        end
    end.
Proof.
  unfold extract_user_id. unfold_bind.
  destruct (Base64.urlsafe_b64decode (pad_base64 fragment)) as [decoded|e] eqn:Hd.
  - destruct (Utf8.decode decoded) as [text|e] eqn:Hu.
    + destruct (str_isascii text) eqn:Ha; simpl; [|reflexivity].
      destruct (str_isdigit text) eqn:Hdig; simpl; [|reflexivity].
      rewrite (py_int_digits _ Hdig). reflexivity.
    + apply utf8_decode_raises in Hu as ->. reflexivity.
  - apply urlsafe_b64decode_raises in Hd as [-> | ->]; reflexivity.
Qed.

Lemma extract_user_id_returns fragment : returns (extract_user_id fragment).
Proof.
  rewrite extract_user_id_unfold. unfold returns.
  repeat case_match; eauto.
Qed.

Lemma is_valid_user_id_returns fragment : returns (is_valid_user_id fragment).
Proof.
  unfold is_valid_user_id.
  destruct (extract_user_id_returns fragment) as [o ->].
  unfold_bind. unfold returns. case_match; eauto.
Qed.

Lemma is_valid_timestamp_unfold fragment :
  is_valid_timestamp fragment =
    match Base64.urlsafe_b64decode (pad_base64 fragment) with
    | Raise _ => Ok false
    | Ok decoded =>
        Ok (bool_decide (int_from_bytes_big decoded + TOKEN_EPOCH >= DISCORD_EPOCH)%Z)
    end.
Proof.
  unfold is_valid_timestamp. unfold_bind.
  destruct (Base64.urlsafe_b64decode (pad_base64 fragment)) as [decoded|e] eqn:Hd.
  - simpl. rewrite Z.geb_leb.
    destruct (Z.leb_spec DISCORD_EPOCH (int_from_bytes_big decoded + TOKEN_EPOCH));
      [rewrite bool_decide_eq_true_2 | rewrite bool_decide_eq_false_2];
      (reflexivity || lia).
  - apply urlsafe_b64decode_raises in Hd as [-> | ->]; reflexivity.
Qed.

Lemma is_valid_timestamp_returns fragment : returns (is_valid_timestamp fragment).
Proof.
  rewrite is_valid_timestamp_unfold. unfold returns. case_match; eauto.
Qed.
End Validators.

(** ** The base64 decoder on known inputs *)

Lemma a2b_loop_bytes (data : bytes) (st : Base64.a2b_state) :
  Forall (fun x => x < 256)%N (Base64.bin_data st) ->
  Forall (fun x => x < 256)%N (Base64.bin_data (Base64.a2b_loop data st)).
Proof.
  revert st. induction data as [|c data IH]; intros st Hst; [exact Hst|].
  cbn [Base64.a2b_loop]. repeat case_match; try (apply IH; exact Hst).
  - exact Hst.
  - apply IH. cbn [Base64.bin_data]. apply Forall_app. split; [exact Hst|].
    constructor; [|constructor].
    change 255%N with (N.ones 8). rewrite N.land_ones.
    apply N.mod_lt. discriminate.
Qed.

(** What [urlsafe_b64decode] returns is a sequence of bytes. *)
Lemma urlsafe_b64decode_bytes (s : str) (b : bytes) :
  Base64.urlsafe_b64decode s = Ok b -> Forall (fun x => x < 256)%N b.
Proof.
  unfold Base64.urlsafe_b64decode, Base64.bytes_from_decode_data,
    Base64.b64decode, Base64.a2b_base64.
  unfold_bind. repeat case_match; intros; simplify_eq.
  apply a2b_loop_bytes. constructor.
Qed.

(** The test vectors of RFC 4648, in the URL-safe alphabet. *)
Example b64_foobar :
  Base64.urlsafe_b64decode (pystr "") = Ok [] /\
  Base64.urlsafe_b64decode (pystr "Zg==") = Ok (pystr "f") /\
  Base64.urlsafe_b64decode (pystr "Zm8=") = Ok (pystr "fo") /\
  Base64.urlsafe_b64decode (pystr "Zm9v") = Ok (pystr "foo") /\
  Base64.urlsafe_b64decode (pystr "Zm9vYg==") = Ok (pystr "foob") /\
  Base64.urlsafe_b64decode (pystr "Zm9vYmE=") = Ok (pystr "fooba") /\
  Base64.urlsafe_b64decode (pystr "Zm9vYmFy") = Ok (pystr "foobar").
Proof. repeat split. Qed.

(** Characters outside the alphabet are skipped, [-] and [_] stand for
    [+] and [/], data after the padding is dropped, and missing padding
    or a lone character is an error. *)
Example b64_lenient :
  Base64.urlsafe_b64decode (pystr "Zm.9v") = Ok (pystr "foo") /\
  Base64.urlsafe_b64decode (pystr "-_-_") = Ok [251; 255; 191]%N /\
  Base64.urlsafe_b64decode (pystr "Zg==Zm9v") = Ok (pystr "f") /\
  Base64.urlsafe_b64decode (pystr "Zg=") = Raise BinasciiError /\
  Base64.urlsafe_b64decode (pystr "Zg") = Raise BinasciiError /\
  Base64.urlsafe_b64decode (pystr "Z") = Raise BinasciiError /\
  Base64.urlsafe_b64decode [233%N] = Raise ValueError.
Proof. repeat split. Qed.

(** ** Big-endian and decimal values *)

Lemma fold_left_radix (radix : Z) (f : N -> Z) (l : list N) (acc : Z) :
  fold_left (fun a x => a * radix + f x)%Z l acc =
    (acc * radix ^ Z.of_nat (length l)
     + fold_left (fun a x => a * radix + f x) l 0)%Z.
Proof.
  revert acc. induction l as [|x l IH]; intros acc; simpl fold_left.
  - simpl. lia.
  - rewrite (IH (acc * radix + f x)%Z), (IH (0 * radix + f x)%Z).
    rewrite length_cons, Nat2Z.inj_succ, Z.pow_succ_r by lia.
    generalize (radix ^ Z.of_nat (length l))%Z,
      (fold_left (fun a x => a * radix + f x) l 0)%Z.
    intros p q. ring.
Qed.

Lemma int_from_bytes_big_value (b : bytes) :
  int_from_bytes_big b = big_endian_value b.
Proof.
  unfold int_from_bytes_big. induction b as [|x r IH]; [reflexivity|].
  simpl fold_left. rewrite fold_left_radix, IH.
  simpl big_endian_value.
  generalize (256 ^ Z.of_nat (length r))%Z, (big_endian_value r).
  intros p q. ring.
Qed.

Lemma int_of_digits_value (s : str) : int_of_digits s = decimal_value s.
Proof.
  unfold int_of_digits. induction s as [|c r IH]; [reflexivity|].
  simpl fold_left.
  rewrite (fold_left_radix 10 (fun c => Z.of_N c - 48)%Z), IH.
  simpl decimal_value.
  generalize (10 ^ Z.of_nat (length r))%Z, (decimal_value r).
  intros p q. ring.
Qed.

Lemma big_endian_value_nonneg (b : bytes) : (0 <= big_endian_value b)%Z.
Proof. induction b; simpl; lia. Qed.

Lemma big_endian_value_zeros (b : bytes) :
  Forall (fun x => x = 0%N) b -> big_endian_value b = 0%Z.
Proof. induction 1 as [|x r -> _ IH]; simpl; lia. Qed.

Lemma is_ascii_digit_spec (c : N) : is_ascii_digit c = true <-> (48 <= c <= 57)%N.
Proof. unfold is_ascii_digit. rewrite andb_true_iff, !N.leb_le. tauto. Qed.

Lemma isascii_isdigit_spec (text : str) :
  str_isascii text && str_isdigit text = true <-> ascii_digits text.
Proof.
  unfold str_isascii, str_isdigit, ascii_digits.
  rewrite !andb_true_iff, negb_true_iff, bool_decide_eq_false.
  rewrite !forallb_forall, Forall_forall.
  setoid_rewrite is_ascii_digit_spec. setoid_rewrite N.ltb_lt.
  setoid_rewrite <- list_elem_of_In.
  split; [tauto|]. intros [Hne Hd].
  split; [|split; assumption].
  intros c Hc. specialize (Hd c Hc). lia.
Qed.

Lemma pad_base64_aligned (data : str) : (length (pad_base64 data) mod 4 = 0)%nat.
Proof.
  unfold pad_base64, str_mul. rewrite length_app.
  assert (Hlen : forall n, length (concat (replicate n (pystr "="))) = n).
  { induction n as [|n IH]; simpl; [reflexivity|]. f_equal. exact IH. }
  rewrite Hlen.
  pose proof (Nat.mod_upper_bound (length data) 4 ltac:(lia)) as Hb.
  rewrite (Nat.div_mod_eq (length data) 4) at 1.
  destruct (length data mod 4) as [|[|[|[|k]]]] eqn:Hm; try lia.
  - replace ((4 - 0) mod 4) with 0%nat by reflexivity.
    rewrite Nat.add_0_r, Nat.add_0_r, Nat.mul_comm. apply Nat.Div0.mod_mul.
  - replace ((4 - 1) mod 4) with 3%nat by reflexivity.
    replace (4 * (length data / 4) + 1 + 3)%nat
      with ((length data / 4 + 1) * 4)%nat by lia.
    apply Nat.Div0.mod_mul.
  - replace ((4 - 2) mod 4) with 2%nat by reflexivity.
    replace (4 * (length data / 4) + 2 + 2)%nat
      with ((length data / 4 + 1) * 4)%nat by lia.
    apply Nat.Div0.mod_mul.
  - replace ((4 - 3) mod 4) with 1%nat by reflexivity.
    replace (4 * (length data / 4) + 3 + 1)%nat
      with ((length data / 4 + 1) * 4)%nat by lia.
    apply Nat.Div0.mod_mul.
Qed.

Example pad_base64_abc : pad_base64 (pystr "abc") = pystr "abc=".
Proof. reflexivity. Qed.

Example pad_base64_abcd : pad_base64 (pystr "abcd") = pystr "abcd".
Proof. reflexivity. Qed.

(** C3: [is_valid_timestamp] never raises.  It returns [True] exactly
    when the padded fragment base64-url-decodes to bytes whose value as a
    big-endian unsigned integer, of any length, satisfies
    [value + TOKEN_EPOCH >= DISCORD_EPOCH], with [TOKEN_EPOCH = 1293840000]
    and [DISCORD_EPOCH = 1420070400]; nothing bounds the value from above.
    A fragment that fails to decode gives [False], and so does one that
    decodes to zero bytes only. *)
Theorem is_valid_timestamp_spec (fragment : str) :
  TOKEN_EPOCH = 1293840000%Z /\ DISCORD_EPOCH = 1420070400%Z /\
  returns (is_valid_timestamp fragment) /\
  (is_valid_timestamp fragment = Ok true <->
     exists decoded,
       Base64.urlsafe_b64decode (pad_base64 fragment) = Ok decoded /\
       int_from_bytes_big decoded = big_endian_value decoded /\
       (big_endian_value decoded + TOKEN_EPOCH >= DISCORD_EPOCH)%Z) /\
  (forall e,
     Base64.urlsafe_b64decode (pad_base64 fragment) = Raise e ->
     is_valid_timestamp fragment = Ok false) /\
  (forall decoded,
     Base64.urlsafe_b64decode (pad_base64 fragment) = Ok decoded ->
     Forall (fun x => x = 0%N) decoded ->
     is_valid_timestamp fragment = Ok false).
Proof.
  split; [reflexivity|]. split; [reflexivity|].
  split; [apply is_valid_timestamp_returns|].
  rewrite is_valid_timestamp_unfold.
  destruct (Base64.urlsafe_b64decode (pad_base64 fragment)) as [decoded|e0] eqn:Hd.
  - rewrite int_from_bytes_big_value. repeat split.
    + intros [= Hb%bool_decide_eq_true]. exists decoded.
      auto using int_from_bytes_big_value.
    + intros (d & [= <-] & _ & Hge). f_equal. apply bool_decide_eq_true_2, Hge.
    + discriminate.
    + intros d [= <-] Hz. f_equal. apply bool_decide_eq_false_2.
      rewrite (big_endian_value_zeros _ Hz). unfold TOKEN_EPOCH, DISCORD_EPOCH. lia.
  - repeat split; try discriminate; auto.
    intros (d & [=] & _).
Qed.

(** The timestamp test at work: four zero bytes are rejected, a value of
    our days is accepted, and so is a value of seventeen bytes. *)
Lemma is_valid_timestamp_spec_witness :
  is_valid_timestamp (pystr "AAAAAA") = Ok false /\
  is_valid_timestamp (pystr "XsyRkw") = Ok true /\
  is_valid_timestamp (pystr "_____________________w") = Ok true /\
  is_valid_timestamp (pystr "A") = Ok false.
Proof.
  split; [|split; [|split]].
  - apply (is_valid_timestamp_spec (pystr "AAAAAA")) with (decoded := [0; 0; 0; 0]%N).
    + vm_compute. reflexivity.
    + repeat constructor.
  - apply (is_valid_timestamp_spec (pystr "XsyRkw")).
    exists [94; 204; 145; 147]%N. vm_compute. repeat split; discriminate.
  - apply (is_valid_timestamp_spec (pystr "_____________________w")).
    eexists. split; [vm_compute; reflexivity|]. vm_compute. repeat split; discriminate.
  - apply (is_valid_timestamp_spec (pystr "A")) with (e := BinasciiError).
    vm_compute. reflexivity.
Defined.

(** C5: [extract_user_id] never raises.  It returns [None] when the padded
    fragment does not base64-url-decode, when the bytes are not UTF-8, and
    when the text is not made of ASCII digits; otherwise it returns the
    text read as a base-10 integer. *)
Theorem extract_user_id_spec (fragment : str) :
  returns (extract_user_id fragment) /\
  (forall e,
     Base64.urlsafe_b64decode (pad_base64 fragment) = Raise e ->
     extract_user_id fragment = Ok None) /\
  (forall decoded e,
     Base64.urlsafe_b64decode (pad_base64 fragment) = Ok decoded ->
     Utf8.decode decoded = Raise e ->
     extract_user_id fragment = Ok None) /\
  (forall decoded text,
     Base64.urlsafe_b64decode (pad_base64 fragment) = Ok decoded ->
     Utf8.decode decoded = Ok text ->
     (~ ascii_digits text -> extract_user_id fragment = Ok None) /\
     (ascii_digits text ->
      extract_user_id fragment = Ok (Some (decimal_value text)))).
Proof.
  split; [apply extract_user_id_returns|].
  rewrite extract_user_id_unfold.
  split; [intros e ->; reflexivity|].
  split; [intros decoded e -> ->; reflexivity|].
  intros decoded text -> ->.
  destruct (str_isascii text && str_isdigit text) eqn:Hd.
  - apply isascii_isdigit_spec in Hd. split; [tauto|].
    intros _. rewrite int_of_digits_value. reflexivity.
  - split; [reflexivity|]. intros Hd'%isascii_isdigit_spec. congruence.
Qed.

Lemma extract_user_id_spec_witness :
  extract_user_id (pystr "MTIz") = Ok (Some 123%Z) /\
  extract_user_id (pystr "MTJh") = Ok None /\
  extract_user_id (pystr "w7E") = Ok None /\
  extract_user_id (pystr "_w") = Ok None /\
  extract_user_id (pystr "M") = Ok None.
Proof.
  split; [|split; [|split; [|split]]].
  - apply (extract_user_id_spec (pystr "MTIz")) with (decoded := [49; 50; 51]%N)
      (text := [49; 50; 51]%N); try reflexivity.
    split; [discriminate|]. repeat constructor; discriminate.
  - apply (extract_user_id_spec (pystr "MTJh")) with (decoded := [49; 50; 97]%N)
      (text := [49; 50; 97]%N); try reflexivity.
    intros [_ H]. inversion H as [|? ? _ H1]; subst.
    inversion H1 as [|? ? _ H2]; subst.
    inversion H2 as [|? ? [_ H3] _]; subst. apply H3. reflexivity.
  - apply (extract_user_id_spec (pystr "w7E")) with (decoded := [195; 177]%N)
      (text := [241]%N); try reflexivity.
    intros [_ H]. inversion H as [|? ? [_ H1] _]; subst. apply H1. reflexivity.
  - apply (extract_user_id_spec (pystr "_w")) with (decoded := [255]%N)
      (e := UnicodeDecodeError); reflexivity.
  - apply (extract_user_id_spec (pystr "M")) with (e := BinasciiError).
    reflexivity.
Defined.

(** C4: [is_valid_user_id] never raises and returns [True] exactly when
    [extract_user_id] returns an integer that is not zero; an id that
    decodes to [0] is rejected, as is a fragment that does not decode. *)
Theorem is_valid_user_id_spec (fragment : str) :
  returns (is_valid_user_id fragment) /\
  (is_valid_user_id fragment = Ok true <->
     exists n, extract_user_id fragment = Ok (Some n) /\ n <> 0%Z) /\
  (extract_user_id fragment = Ok (Some 0%Z) ->
   is_valid_user_id fragment = Ok false) /\
  (extract_user_id fragment = Ok None ->
   is_valid_user_id fragment = Ok false).
Proof.
  split; [apply is_valid_user_id_returns|].
  unfold is_valid_user_id.
  destruct (extract_user_id_returns fragment) as [o ->]. unfold_bind.
  destruct o as [n|]; simpl.
  - destruct (Z.eqb_spec n 0) as [->|Hn]; simpl.
    + repeat split; try discriminate. intros (n & [= <-] & Hn). congruence.
    + repeat split; try discriminate; eauto. intros [= ->]. congruence.
  - repeat split; try discriminate. intros (n & [=] & _).
Qed.

Lemma is_valid_user_id_spec_witness :
  is_valid_user_id (pystr "MA") = Ok false /\
  is_valid_user_id (pystr "MDAw") = Ok false /\
  is_valid_user_id (pystr "MTIz") = Ok true.
Proof.
  split; [|split].
  - apply (proj1 (proj2 (proj2 (is_valid_user_id_spec (pystr "MA"))))).
    reflexivity.
  - apply (proj1 (proj2 (proj2 (is_valid_user_id_spec (pystr "MDAw"))))).
    reflexivity.
  - apply (is_valid_user_id_spec (pystr "MTIz")). exists 123%Z.
    split; [reflexivity | discriminate].
Defined.

(** ** Runs of characters of a set, and the greedy [+] *)

Section Runs.
Variable cls : codepoint -> bool.

Local Abbreviation run_of := (run_of cls).
Local Abbreviation after_run := (after_run cls).
Local Abbreviation head_in := (head_in cls).

Lemma run_of_after_run s : run_of s ++ after_run s = s.
Proof.
  induction s as [|c s IH]; simpl; [reflexivity|].
  destruct (cls c); simpl; congruence.
Qed.

Lemma run_of_Forall s : Forall (fun c => cls c = true) (run_of s).
Proof.
  induction s as [|c s IH]; simpl; [constructor|].
  destruct (cls c) eqn:Hc; constructor; assumption.
Qed.

Lemma head_in_after_run s : head_in (after_run s) = false.
Proof.
  induction s as [|c s IH]; simpl; [reflexivity|].
  destruct (cls c) eqn:Hc; simpl; assumption.
Qed.

Lemma run_of_nonempty s : head_in s = true -> run_of s <> [].
Proof. destruct s as [|c s]; simpl; [discriminate|]. intros ->. discriminate. Qed.

Lemma after_run_id s : head_in s = false -> after_run s = s.
Proof. destruct s as [|c s]; simpl; [reflexivity|]. intros ->. reflexivity. Qed.

Lemma length_after_run s : length (after_run s) <= length s.
Proof.
  rewrite <- (run_of_after_run s) at 2. rewrite length_app. lia.
Qed.

Lemma length_after_run_lt s : head_in s = true -> length (after_run s) < length s.
Proof.
  intros H%run_of_nonempty.
  rewrite <- (run_of_after_run s) at 2. rewrite length_app.
  destruct (run_of s); [congruence | simpl; lia].
Qed.

Lemma take_run_of s : take (length s - length (after_run s)) s = run_of s.
Proof.
  rewrite <- (run_of_after_run s) at 1 3. rewrite length_app.
  replace (length (run_of s) + length (after_run s) - length (after_run s))
    with (length (run_of s)) by lia.
  apply take_app_length.
Qed.

(** A run that is followed by a character outside the set is found
    again by the scan. *)
Lemma run_of_app p x :
  Forall (fun c => cls c = true) p -> head_in x = false ->
  run_of (p ++ x) = p /\ after_run (p ++ x) = x.
Proof.
  intros Hp Hx. induction Hp as [|c p Hc _ IH]; simpl.
  - destruct x as [|c x]; simpl in *; [auto|]. rewrite Hx. auto.
  - rewrite Hc. destruct IH as [-> ->]. auto.
Qed.

Lemma head_in_app p x :
  p <> [] -> Forall (fun c => cls c = true) p -> head_in (p ++ x) = true.
Proof. intros Hne Hp. destruct Hp; [congruence | assumption]. Qed.

(** When the rest of the pattern cannot succeed after a shorter run
    unless it succeeds after the longest one, [greedy_plus] commits to
    the longest run: backtracking changes nothing. *)
Lemma greedy_plus_commit {R} (k : str -> option R) s :
  (forall s', head_in s' = true -> k (after_run s') = None -> k s' = None) ->
  Re.greedy_plus cls s k = if head_in s then k (after_run s) else None.
Proof.
  intros Hk. induction s as [|c s IH]; simpl; [reflexivity|].
  destruct (cls c) eqn:Hc; [|reflexivity].
  rewrite IH. destruct (head_in s) eqn:Hs.
  - destruct (k (after_run s)) eqn:Hr; [reflexivity|]. auto.
  - rewrite after_run_id by assumption. reflexivity.
Qed.
End Runs.

(** ** Matches consume text: the scan of [finditer] never runs out of fuel *)

Lemma greedy_plus_progress {R} cls (k : str -> option R) s res :
  Re.greedy_plus cls s k = Some res ->
  exists s', length s' < length s /\ k s' = Some res.
Proof.
  induction s as [|c s IH]; simpl; [discriminate|].
  destruct (cls c); [|discriminate].
  destruct (Re.greedy_plus cls s k) as [r|] eqn:Hg.
  - intros [= ->]. destruct (IH eq_refl) as (s' & Hlen & Hk).
    exists s'. split; [lia | exact Hk].
  - intros Hk. exists s. split; [lia | exact Hk].
Qed.

Lemma run_progress {R} (r : Re.regex) :
  forall s groups (k : str -> list str -> option R) res,
    Re.run r s groups k = Some res ->
    exists s' groups', length s' < length s /\ k s' groups' = Some res.
Proof.
  induction r as [c | cls | r IH | r1 IH1 r2 IH2]; intros s groups k res; simpl.
  - destruct s as [|c' s]; [discriminate|].
    destruct (c' =? c)%N; [|discriminate].
    intros Hk. exists s, groups. simpl. split; [lia | exact Hk].
  - intros (s' & Hlen & Hk)%greedy_plus_progress. eauto.
  - intros (s' & groups' & Hlen & Hk)%IH. eauto.
  - intros (s1 & g1 & Hlen1 & (s2 & g2 & Hlen2 & Hk)%IH2)%IH1.
    exists s2, g2. split; [lia | exact Hk].
Qed.

Lemma match_here_progress (r : Re.regex) s groups rest :
  Re.match_here r s = Some (groups, rest) -> length rest < length s.
Proof.
  unfold Re.match_here. intros (s' & g' & Hlen & [= _ <-])%run_progress.
  exact Hlen.
Qed.

(** Whatever the pattern, fuel above the length of the text is enough. *)
Lemma scan_fuel_enough (r : Re.regex) fuel s :
  length s < fuel -> Re.scan fuel r s = Re.finditer r s.
Proof.
  unfold Re.finditer.
  assert (H : forall f1 f2 s, length s < f1 -> length s < f2 ->
                Re.scan f1 r s = Re.scan f2 r s).
  { clear. induction f1 as [|f1 IH]; intros [|f2] s H1 H2; try lia.
    cbn [Re.scan]. destruct (Re.match_here r s) as [[groups rest]|] eqn:Hm.
    - apply match_here_progress in Hm. f_equal. apply IH; lia.
    - destruct s as [|c s]; [reflexivity|]. simpl in H1, H2. apply IH; lia. }
  intros Hlen. apply H; [exact Hlen | lia].
Qed.

(** ** What [TOKEN_RE] matches *)

(** The characters of the set, spelled out. *)
Lemma is_token_char_spec (c : codepoint) :
  is_token_char c = true <-> in_token_class c.
Proof.
  unfold is_token_char, is_word_ascii, in_token_class.
  rewrite !orb_true_iff, !andb_true_iff, !N.leb_le, !N.eqb_eq. tauto.
Qed.

Lemma DOT_not_token_char : is_token_char DOT = false.
Proof. reflexivity. Qed.

Lemma dot_head_in s :
  head_in is_token_char s = true -> dot s = None.
Proof.
  destruct s as [|c s]; simpl; [reflexivity|].
  destruct (N.eqb_spec c DOT) as [->|]; [|reflexivity].
  rewrite DOT_not_token_char. discriminate.
Qed.

(** The backtracking matcher on [TOKEN_RE] is the direct reading. *)
Lemma match_here_TOKEN_RE s : Re.match_here TOKEN_RE s = parse3 s.
Proof.
  unfold Re.match_here, TOKEN_RE, parse3, part. simpl Re.run.
  rewrite greedy_plus_commit.
  2:{ intros s' Hs' _. destruct s' as [|c s']; [reflexivity|].
      simpl in Hs'. destruct (N.eqb_spec c DOT) as [->|]; [|reflexivity].
      rewrite DOT_not_token_char in Hs'. discriminate. }
  destruct (head_in is_token_char s) eqn:H1; [|reflexivity]. simpl.
  rewrite take_run_of.
  destruct (after_run is_token_char s) as [|c1 r1]; [reflexivity|]. simpl.
  destruct (c1 =? DOT)%N eqn:Hc1; [|reflexivity]. simpl.
  rewrite greedy_plus_commit.
  2:{ intros s' Hs' _. destruct s' as [|c s']; [reflexivity|].
      simpl in Hs'. destruct (N.eqb_spec c DOT) as [->|]; [|reflexivity].
      rewrite DOT_not_token_char in Hs'. discriminate. }
  destruct (head_in is_token_char r1) eqn:H2; [|reflexivity]. simpl.
  rewrite take_run_of.
  destruct (after_run is_token_char r1) as [|c2 r2]; [reflexivity|]. simpl.
  destruct (c2 =? DOT)%N eqn:Hc2; [|reflexivity]. simpl.
  rewrite greedy_plus_commit by discriminate.
  destruct (head_in is_token_char r2) eqn:H3; [|reflexivity]. simpl.
  rewrite take_run_of. reflexivity.
Qed.

Lemma Forall_token_class (p : str) :
  Forall (fun c => is_token_char c = true) p <-> Forall in_token_class p.
Proof. apply Forall_iff. intros c. apply is_token_char_spec. Qed.

Lemma head_in_not_continued (rest : str) :
  head_in is_token_char rest = false <-> not_continued rest.
Proof.
  destruct rest as [|c rest]; simpl; [tauto|].
  rewrite <- is_token_char_spec. destruct (is_token_char c); split; congruence.
Qed.

Lemma part_Some s p r :
  part s = Some (p, r) ->
  s = p ++ r /\ token_part p /\ not_continued r.
Proof.
  unfold part. destruct (head_in is_token_char s) eqn:Hh; [|discriminate].
  intros [= <- <-]. split; [symmetry; apply run_of_after_run|].
  split; [split|].
  - apply run_of_nonempty, Hh.
  - apply Forall_token_class, run_of_Forall.
  - apply head_in_not_continued, head_in_after_run.
Qed.

Lemma part_app p x :
  token_part p -> head_in is_token_char x = false -> part (p ++ x) = Some (p, x).
Proof.
  intros [Hne Hp%Forall_token_class] Hx. unfold part.
  rewrite head_in_app by assumption.
  destruct (run_of_app is_token_char p x Hp Hx) as [-> ->]. reflexivity.
Qed.

Lemma dot_Some s r : dot s = Some r -> s = DOT :: r.
Proof.
  destruct s as [|c s]; simpl; [discriminate|].
  destruct (N.eqb_spec c DOT) as [->|]; [|discriminate]. congruence.
Qed.

(** A match of the pattern has the shape, with the longest last part. *)
Lemma parse3_Some s g rest :
  parse3 s = Some (g, rest) ->
  exists p1 p2 p3,
    g = [p1; p2; p3] /\ shape p1 p2 p3 rest s /\ not_continued rest.
Proof.
  unfold parse3. unfold mbind, option_bind.
  destruct (part s) as [[p1 r1]|] eqn:H1; [|discriminate].
  destruct (dot r1) as [r1'|] eqn:D1; [|discriminate].
  destruct (part r1') as [[p2 r2]|] eqn:H2; [|discriminate].
  destruct (dot r2) as [r2'|] eqn:D2; [|discriminate].
  destruct (part r2') as [[p3 r3]|] eqn:H3; [|discriminate].
  intros [= <- <-].
  apply part_Some in H1 as (-> & Hp1 & _).
  apply part_Some in H2 as (-> & Hp2 & _).
  apply part_Some in H3 as (-> & Hp3 & Hr).
  apply dot_Some in D1 as ->. apply dot_Some in D2 as ->.
  exists p1, p2, p3. split; [reflexivity|]. split; [|assumption].
  split; [reflexivity|]. auto.
Qed.

(** Conversely the shape, read with the longest last part, is what the
    pattern matches. *)
Lemma shape_parse3 p1 p2 p3 rest s :
  shape p1 p2 p3 rest s -> not_continued rest ->
  parse3 s = Some ([p1; p2; p3], rest).
Proof.
  intros (-> & Hp1 & Hp2 & Hp3) Hr%head_in_not_continued.
  unfold parse3. unfold mbind, option_bind.
  rewrite (part_app p1) by (assumption || reflexivity).
  change (dot ([DOT] ++ ?x)) with (Some x). cbv beta iota.
  rewrite (part_app p2) by (assumption || reflexivity).
  change (dot ([DOT] ++ ?x)) with (Some x). cbv beta iota.
  rewrite (part_app p3) by assumption. reflexivity.
Qed.

Lemma token_part_app_run p x :
  token_part p -> token_part (p ++ run_of is_token_char x).
Proof.
  intros [Hne Hp]. split.
  - destruct p; [congruence | discriminate].
  - apply Forall_app. split; [assumption|].
    apply Forall_token_class, run_of_Forall.
Qed.

Lemma matches_here_parse3 s : matches_here s <-> parse3 s <> None.
Proof.
  split.
  - intros (p1 & p2 & p3 & rest & -> & Hp1 & Hp2 & Hp3).
    rewrite (shape_parse3 p1 p2 (p3 ++ run_of is_token_char rest)
               (after_run is_token_char rest)); [discriminate| |].
    + split; [|auto using token_part_app_run].
      rewrite <- (run_of_after_run is_token_char rest) at 1.
      rewrite <- !app_assoc. reflexivity.
    + apply head_in_not_continued, head_in_after_run.
  - destruct (parse3 s) as [[g rest]|] eqn:Hp; [|congruence]. intros _.
    apply parse3_Some in Hp as (p1 & p2 & p3 & _ & Hs & _).
    exists p1, p2, p3, rest. exact Hs.
Qed.

Lemma shape_length p1 p2 p3 rest s :
  shape p1 p2 p3 rest s -> length rest < length s.
Proof. intros (-> & _). rewrite !length_app. simpl. lia. Qed.

(** ** The scan of [finditer] yields the candidates *)

Lemma candidates_skip c s l :
  ~ matches_here (c :: s) -> candidates s l -> candidates (c :: s) l.
Proof.
  intros Hc Hl. inversion Hl as [s0 Hno | pre p1 p2 p3 rest l' s0 Hs]; subst.
  - apply candidates_nil. intros [|c' pre] suf Heq; simpl in Heq.
    + subst suf. exact Hc.
    + injection Heq as -> ->. eapply Hno. reflexivity.
  - eapply (candidates_cons (c :: pre)); eauto.
    intros [|c' pre1] suf Heq Hne; simpl in Heq.
    + subst suf. exact Hc.
    + injection Heq as -> ->. eauto.
Qed.

Lemma scan_candidates fuel s :
  length s < fuel ->
  exists l, Re.scan fuel TOKEN_RE s = map groups_of l /\ candidates s l.
Proof.
  revert s. induction fuel as [|fuel IH]; intros s Hlen; [lia|].
  simpl. rewrite match_here_TOKEN_RE.
  destruct (parse3 s) as [[g rest]|] eqn:Hp.
  - apply parse3_Some in Hp as (p1 & p2 & p3 & -> & Hs & Hr).
    pose proof (shape_length _ _ _ _ _ Hs) as Hlt.
    destruct (IH rest ltac:(lia)) as (l & -> & Hl).
    exists (mkToken p1 p2 p3 :: l). split; [reflexivity|].
    destruct Hs as (-> & Hp1 & Hp2 & Hp3).
    eapply (candidates_cons []); eauto.
    intros pre1 suf Heq Hne. symmetry in Heq.
    apply app_eq_nil in Heq as [_ ->]. congruence.
  - assert (Hno : ~ matches_here s) by (rewrite matches_here_parse3; tauto).
    destruct s as [|c s].
    + exists []. split; [reflexivity|]. apply candidates_nil.
      intros pre suf Heq. symmetry in Heq.
      apply app_eq_nil in Heq as [_ ->]. exact Hno.
    + simpl in Hlen. destruct (IH s ltac:(lia)) as (l & -> & Hl).
      exists l. split; [reflexivity|]. apply candidates_skip; assumption.
Qed.

Lemma scan_of_candidates s l :
  candidates s l ->
  forall fuel, length s < fuel -> Re.scan fuel TOKEN_RE s = map groups_of l.
Proof.
  induction 1 as [s Hno | pre p1 p2 p3 rest l s -> Hp1 Hp2 Hp3 Hr Hleft Hl IH].
  - induction s as [|c s IHs]; intros [|fuel] Hlen; simpl in Hlen; try lia;
      cbn [Re.scan]; rewrite match_here_TOKEN_RE.
    + destruct (parse3 []) eqn:Hp; [|reflexivity].
      exfalso. apply (Hno [] []); [reflexivity|].
      apply matches_here_parse3. congruence.
    + destruct (parse3 (c :: s)) eqn:Hp.
      * exfalso. apply (Hno [] (c :: s)); [reflexivity|].
        apply matches_here_parse3. congruence.
      * apply IHs; [|lia]. intros pre suf ->. apply (Hno (c :: pre)). reflexivity.
  - induction pre as [|c pre IHpre]; intros [|fuel] Hlen; try lia.
    + change ([] ++ ?x) with x in *.
      cbn [Re.scan]. rewrite match_here_TOKEN_RE.
      rewrite (shape_parse3 p1 p2 p3 rest) by (unfold shape; auto).
      rewrite IH; [reflexivity|].
      repeat (rewrite length_app in Hlen || rewrite length_cons in Hlen). lia.
    + change ((c :: pre) ++ ?x) with (c :: pre ++ x) in *.
      rewrite length_cons in Hlen.
      cbn [Re.scan]. rewrite match_here_TOKEN_RE.
      destruct (parse3 _) eqn:Hp.
      * exfalso. apply (Hleft [] (c :: pre)); [reflexivity|discriminate|].
        apply matches_here_parse3.
        change ((c :: pre) ++ ?x) with (c :: pre ++ x). congruence.
      * apply IHpre; [|lia].
        intros pre1 suf -> Hne. apply (Hleft (c :: pre1)); [reflexivity|assumption].
Qed.

Lemma groups_of_inj : Inj (=) (=) groups_of.
Proof. intros [a b c] [a' b' c'] [= -> -> ->]. reflexivity. Qed.

(** The candidates of a text exist and are determined by it: they are
    the matches that [finditer] yields. *)
Lemma finditer_candidates s :
  exists l,
    Re.finditer TOKEN_RE s = map groups_of l /\ candidates s l /\
    (forall l', candidates s l' -> l' = l).
Proof.
  unfold Re.finditer.
  destruct (scan_candidates (S (length s)) s ltac:(lia)) as (l & Hscan & Hl).
  exists l. repeat split; auto.
  intros l' Hl'.
  pose proof (scan_of_candidates _ _ Hl' (S (length s)) ltac:(lia)) as Heq.
  rewrite Hscan in Heq. symmetry in Heq.
  revert Heq. apply list_fmap_eq_inj, groups_of_inj.
Qed.

Lemma candidates_parts s l :
  candidates s l ->
  Forall (fun t => token_part (user_id t) /\ token_part (timestamp t)
                   /\ token_part (hmac t)) l.
Proof. induction 1; constructor; simpl; auto. Qed.

(** Every candidate occurs in the text, written [part1.part2.part3]. *)
Lemma candidates_occur s l :
  candidates s l ->
  Forall (fun t => contains (user_id t ++ [DOT] ++ timestamp t ++ [DOT] ++ hmac t) s) l.
Proof.
  induction 1 as [s Hno | pre p1 p2 p3 rest l s -> Hp1 Hp2 Hp3 Hr Hleft Hl IH];
    constructor.
  - exists pre, rest. cbn [user_id timestamp hmac].
    rewrite <- !app_assoc. reflexivity.
  - eapply Forall_impl; [exact IH|]. intros t (a & b & ->).
    exists (pre ++ p1 ++ [DOT] ++ p2 ++ [DOT] ++ p3 ++ a), b.
    rewrite <- !app_assoc. reflexivity.
Qed.

(** ** The loop of [find_token_in_message] *)

Lemma Token_of_groups_of t : Token_of_groups (groups_of t) = Ok t.
Proof. destruct t. reflexivity. Qed.

Lemma find_token_loop_valid t l :
  valid_token t -> find_token_loop (map groups_of (t :: l)) = Ok (Some t).
Proof.
  intros [Hid Hts]. cbn [map find_token_loop].
  rewrite Token_of_groups_of. unfold_bind. rewrite Hid, Hts. reflexivity.
Qed.

Lemma find_token_loop_invalid t l :
  ~ valid_token t ->
  find_token_loop (map groups_of (t :: l)) = find_token_loop (map groups_of l).
Proof.
  intros Hinv. cbn [map find_token_loop].
  rewrite Token_of_groups_of. unfold_bind.
  destruct (is_valid_user_id_returns (user_id t)) as [[|] Hid]; rewrite Hid;
    [|reflexivity].
  destruct (is_valid_timestamp_returns (timestamp t)) as [[|] Hts]; rewrite Hts;
    [|reflexivity].
  exfalso. apply Hinv. split; assumption.
Qed.

Lemma valid_token_dec t : valid_token t \/ ~ valid_token t.
Proof.
  unfold valid_token.
  destruct (is_valid_user_id_returns (user_id t)) as [[|] ->];
  destruct (is_valid_timestamp_returns (timestamp t)) as [[|] ->];
    (left; split; reflexivity) || (right; intros [? ?]; discriminate).
Qed.

Lemma find_token_loop_first l before t after :
  l = before ++ t :: after ->
  Forall (fun c => ~ valid_token c) before -> valid_token t ->
  find_token_loop (map groups_of l) = Ok (Some t).
Proof.
  intros -> Hb Ht. induction Hb as [|c before Hc _ IH].
  - apply find_token_loop_valid, Ht.
  - change ((c :: before) ++ ?x) with (c :: before ++ x).
    rewrite find_token_loop_invalid by assumption. exact IH.
Qed.

Lemma find_token_loop_none l :
  Forall (fun c => ~ valid_token c) l ->
  find_token_loop (map groups_of l) = Ok None.
Proof.
  induction 1 as [|c l Hc _ IH]; [reflexivity|].
  rewrite find_token_loop_invalid by assumption. exact IH.
Qed.

Lemma find_token_loop_first_valid l :
  exists r, find_token_loop (map groups_of l) = Ok r /\ first_valid l r.
Proof.
  induction l as [|t l (r & Hr & Hfirst)].
  - exists None. split; [reflexivity | constructor].
  - destruct (valid_token_dec t) as [Ht|Ht].
    + exists (Some t). split; [apply find_token_loop_valid, Ht|].
      exists [], l. auto.
    + exists r. rewrite find_token_loop_invalid by assumption.
      split; [assumption|]. destruct r as [t'|]; simpl in *.
      * destruct Hfirst as (before & after & -> & Hb & Ht').
        exists (t :: before), after. auto.
      * constructor; assumption.
Qed.

Lemma is_valid_user_id_true fragment :
  is_valid_user_id fragment = Ok true <->
  exists n, extract_user_id fragment = Ok (Some n) /\ n <> 0%Z.
Proof.
  unfold is_valid_user_id.
  destruct (extract_user_id_returns fragment) as [o ->]. unfold_bind.
  destruct o as [n|]; simpl.
  - destruct (Z.eqb_spec n 0) as [->|Hn]; simpl.
    + split; [discriminate|]. intros (n & [= <-] & Hn). congruence.
    + split; eauto.
  - split; [discriminate|]. intros (n & [=] & _).
Qed.

(** C1: the candidates of the message text are the substrings
    [part1.part2.part3] found from left to right without overlap, each
    part a non-empty run of [A-Z], [a-z], [0-9], [_], [-], [=]; the text
    determines them, and they are the matches of [TOKEN_RE.finditer].
    [find_token_in_message] never raises and returns the first candidate
    whose user id and timestamp both pass their checks, and [None] when
    no candidate does; a valid candidate is returned when all the
    candidates before it are invalid. *)
Theorem find_token_in_message_first_valid (msg : Message) :
  exists cands,
    candidates (m_content msg) cands /\
    (forall l, candidates (m_content msg) l -> l = cands) /\
    Re.finditer TOKEN_RE (m_content msg) = map groups_of cands /\
    (exists r, find_token_in_message msg = Ok r /\ first_valid cands r) /\
    (forall before t after,
       cands = before ++ t :: after ->
       Forall (fun c => ~ valid_token c) before -> valid_token t ->
       find_token_in_message msg = Ok (Some t)) /\
    (Forall (fun c => ~ valid_token c) cands ->
     find_token_in_message msg = Ok None).
Proof.
  destruct (finditer_candidates (m_content msg)) as (cands & Hfind & Hc & Huniq).
  exists cands. unfold find_token_in_message. rewrite Hfind.
  split; [assumption|]. split; [assumption|]. split; [reflexivity|].
  split; [apply find_token_loop_first_valid|].
  split; [apply find_token_loop_first | apply find_token_loop_none].
Qed.

(** C9: a token that [find_token_in_message] returns has three non-empty
    fragments made of [A-Z], [a-z], [0-9], [_], [-], [=]; its user id and
    its timestamp pass their checks, and [extract_user_id] of its user id
    is an integer other than zero. *)
Theorem find_token_in_message_invariant (msg : Message) (t : Token) :
  find_token_in_message msg = Ok (Some t) ->
  token_part (user_id t) /\ token_part (timestamp t) /\ token_part (hmac t) /\
  is_valid_user_id (user_id t) = Ok true /\
  is_valid_timestamp (timestamp t) = Ok true /\
  exists n, extract_user_id (user_id t) = Ok (Some n) /\ n <> 0%Z.
Proof.
  unfold find_token_in_message.
  destruct (finditer_candidates (m_content msg)) as (cands & -> & Hc & _).
  destruct (find_token_loop_first_valid cands) as (r & -> & Hfirst).
  intros [= ->]. destruct Hfirst as (before & after & -> & _ & Hid & Hts).
  apply candidates_parts in Hc.
  apply Forall_app in Hc as [_ Hc]. apply Forall_cons in Hc as [(H1 & H2 & H3) _].
  repeat (split; [assumption|]).
  apply is_valid_user_id_true, Hid.
Qed.

Lemma find_token_in_message_first_valid_witness :
  find_token_in_message sample_leak = Ok (Some sample_token).
Proof.
  destruct (find_token_in_message_first_valid sample_leak)
    as (cands & _ & _ & Hfind & _ & Hfirst & _).
  assert (Hc : Re.finditer TOKEN_RE (m_content sample_leak)
               = map groups_of [sample_call; sample_token])
    by (vm_compute; reflexivity).
  rewrite Hc in Hfind. apply (list_fmap_eq_inj _ groups_of_inj) in Hfind.
  apply (Hfirst [sample_call] sample_token []).
  - symmetry. exact Hfind.
  - constructor; [|constructor]. intros [Hid _]. vm_compute in Hid. discriminate.
  - split; vm_compute; reflexivity.
Defined.

Lemma find_token_in_message_invariant_witness :
  find_token_in_message sample_leak = Ok (Some sample_token) /\
  token_part (hmac sample_token) /\
  exists n, extract_user_id (user_id sample_token) = Ok (Some n) /\ n <> 0%Z.
Proof.
  assert (H : find_token_in_message sample_leak = Ok (Some sample_token))
    by (vm_compute; reflexivity).
  split; [exact H|].
  destruct (find_token_in_message_invariant sample_leak sample_token H)
    as (_ & _ & Hh & _ & _ & Hn).
  split; assumption.
Defined.

(** ** The handlers *)

(** C6: when the bot's deletion is registered with the mod log and the
    deletion itself raises [NotFound], [take_action] makes three calls
    (the registration, the deletion, one debug line) and returns: it sends
    no notice, looks up no member, sends no moderation alert, increments
    no counter, and raises nothing. *)
Theorem take_action_not_found (w : World) (msg : Message) (token : Token)
    (tr : list event) :
  w_ignore w Event_message_delete (m_id msg) = Ok tt ->
  w_delete w msg = Raise NotFound ->
  exists calls,
    take_action msg token w tr = (tr ++ calls, Ok tt) /\
    calls = [ EIgnore Event_message_delete (m_id msg);
              EDelete msg;
              ELogDebug (pystr "Failed to remove token in message "
                         ++ str_of_int (m_id msg)
                         ++ pystr ": message already deleted.") ] /\
    Forall (fun e => ~ after_delete_step e) calls.
Proof.
  intros Hignore Hdelete. eexists. split; [|split; [reflexivity|]].
  - unfold take_action, bot_try_except, call.
    unfold mbind, mret, Bot_bind, Bot_ret. rewrite Hignore, Hdelete.
    simpl. rewrite <- !app_assoc. reflexivity.
  - repeat constructor; simpl; tauto.
Qed.

Lemma take_action_not_found_witness :
  fst (take_action sample_leak sample_token (sample_world (Raise NotFound)) [])
  = [ EIgnore Event_message_delete 1; EDelete sample_leak;
      ELogDebug (pystr "Failed to remove token in message 1: message already deleted.") ]
  /\ snd (take_action sample_leak sample_token (sample_world (Raise NotFound)) [])
     = Ok tt.
Proof.
  destruct (take_action_not_found (sample_world (Raise NotFound)) sample_leak
              sample_token [] eq_refl eq_refl) as (calls & -> & -> & _).
  split; reflexivity.
Defined.

(** When the deletion succeeds the other steps follow, in the order of
    the source; the user id 123 of the sample token is a member of the
    sample guild, so the alert pings. *)
Example take_action_deleted :
  exists notice log_text args,
    take_action sample_leak sample_token (sample_world (Ok tt)) [] =
      ([ EIgnore Event_message_delete 1; EDelete sample_leak;
         ESend sample_channel notice;
         EGetMember sample_guild (Some 123%Z);
         ELogDebug log_text; ESendLogMessage args;
         EStatsIncr (pystr "tokens.removed_tokens") ], Ok tt) /\
    lm_text args = log_text /\ lm_ping_everyone args = true.
Proof. do 3 eexists. split; [vm_compute; reflexivity|]. split; reflexivity. Qed.

(** Another failure of the deletion is not caught: it leaves [take_action]
    after the two calls made so far. *)
Example take_action_forbidden :
  take_action sample_leak sample_token (sample_world (Raise Forbidden)) [] =
    ([ EIgnore Event_message_delete 1; EDelete sample_leak ], Raise Forbidden).
Proof. reflexivity. Qed.

(** C10: for a message without a guild, and for a message whose author is
    a bot, [on_message] returns at once: it makes no call at all,
    whatever the text of the message holds. *)
Theorem on_message_ignores_dm_and_bots (w : World) (msg : Message)
    (tr : list event) :
  m_guild msg = None \/ u_bot (m_author msg) = true ->
  on_message msg w tr = (tr, Ok tt).
Proof.
  unfold on_message. intros [-> | ->].
  - reflexivity.
  - rewrite orb_true_r. reflexivity.
Qed.

Lemma on_message_ignores_dm_and_bots_witness :
  on_message
    (sample_message sample_author None "MTIz.XsyRkw.abc" 0)
    (sample_world (Ok tt)) [] = ([], Ok tt)
  /\ on_message
    (sample_message sample_bot (Some sample_guild) "MTIz.XsyRkw.abc" 0)
    (sample_world (Ok tt)) [] = ([], Ok tt).
Proof.
  split.
  - apply on_message_ignores_dm_and_bots. left. reflexivity.
  - apply on_message_ignores_dm_and_bots. right. reflexivity.
Defined.

(** C8: an edit is handled as the posting of the edited message: the same
    calls, the same outcome; when the edited message holds a token, this
    is [take_action] on it. *)
Theorem on_message_edit_as_on_message (before after : Message) (w : World)
    (tr : list event) :
  on_message_edit before after w tr = on_message after w tr /\
  (forall g t,
     m_guild after = Some g -> u_bot (m_author after) = false ->
     find_token_in_message after = Ok (Some t) ->
     on_message_edit before after w tr = take_action after t w tr).
Proof.
  split; [reflexivity|]. intros g t Hg Hb Ht.
  unfold on_message_edit, on_message. rewrite Hg, Hb. simpl.
  unfold lift, mbind, Bot_bind. rewrite Ht. reflexivity.
Qed.

Lemma on_message_edit_as_on_message_witness :
  on_message_edit (sample_message sample_author (Some sample_guild) "hello" 0)
    sample_leak (sample_world (Ok tt)) []
  = take_action sample_leak sample_token (sample_world (Ok tt)) [].
Proof.
  apply (on_message_edit_as_on_message _ sample_leak _ _) with (g := sample_guild).
  - reflexivity.
  - reflexivity.
  - vm_compute. reflexivity.
Defined.

(** ** The log message *)

Lemma str_mul_char (c : codepoint) (n : nat) : str_mul [c] n = replicate n c.
Proof. unfold str_mul. induction n as [|n IH]; simpl; congruence. Qed.

Lemma format_LOG_MESSAGE (author aid channel uid ts xs : str) :
  str_format LOG_MESSAGE
    [ (pystr "author", author); (pystr "author_id", aid);
      (pystr "channel", channel); (pystr "user_id", uid);
      (pystr "timestamp", ts); (pystr "hmac", xs) ] =
  Ok (pystr "Censored a seemingly valid token sent by " ++ author
      ++ pystr " (`" ++ aid ++ pystr "`) in " ++ channel
      ++ pystr ", token was `" ++ uid ++ pystr "." ++ ts ++ pystr "."
      ++ xs ++ pystr "`").
Proof. vm_compute. reflexivity. Qed.

Lemma format_USER_TOKEN_MESSAGE (uid name : str) :
  str_format USER_TOKEN_MESSAGE
    [ (pystr "user_id", uid); (pystr "user_name", name) ] =
  Ok (pystr "The token user_id decodes into " ++ uid
      ++ pystr ", which matches `" ++ name
      ++ pystr "` and means this is a valid USER token.").
Proof. vm_compute. reflexivity. Qed.

Lemma format_DECODED_LOG_MESSAGE (uid : str) :
  str_format DECODED_LOG_MESSAGE [ (pystr "user_id", uid) ] =
  Ok (pystr "The token user_id decodes into " ++ uid ++ pystr ".").
Proof. vm_compute. reflexivity. Qed.

Lemma format_log_message_value (msg : Message) (token : Token)
    (user_id_ : option Z) (user_name : option str) :
  format_log_message msg token user_id_ user_name =
    Ok (censored_log msg (user_id token) (timestamp token)
          (length (hmac token)) user_id_ user_name).
Proof.
  unfold format_log_message, censored_log, log_note.
  change (pystr "x") with [120%N]. rewrite str_mul_char.
  rewrite format_LOG_MESSAGE. unfold_bind.
  destruct (truthy_opt_str user_name);
    [rewrite format_USER_TOKEN_MESSAGE | rewrite format_DECODED_LOG_MESSAGE];
    f_equal; rewrite <- !app_assoc; reflexivity.
Qed.

(** C7, amended: the log message is the fixed text with the author, the
    channel, the user-id and timestamp fragments as they are, and in the
    place of the hmac as many [x] as the hmac has characters; it depends
    on the hmac through its length only, so tokens that differ in their
    hmac alone, with the same length, give the same message. *)
Theorem format_log_message_censors (msg : Message) (token : Token)
    (user_id_ : option Z) (user_name : option str) :
  format_log_message msg token user_id_ user_name =
    Ok (censored_log msg (user_id token) (timestamp token)
          (length (hmac token)) user_id_ user_name) /\
  (forall token',
     user_id token' = user_id token -> timestamp token' = timestamp token ->
     length (hmac token') = length (hmac token) ->
     format_log_message msg token' user_id_ user_name =
     format_log_message msg token user_id_ user_name).
Proof.
  split; [apply format_log_message_value|].
  intros token' Hu Ht Hh. rewrite !format_log_message_value, Hu, Ht, Hh.
  reflexivity.
Qed.

Lemma format_log_message_censors_witness :
  format_log_message sample_leak (mkToken (pystr "MTIz") (pystr "XsyRkw") (pystr "SECRET1"))
    (Some 123%Z) None =
  format_log_message sample_leak sample_token (Some 123%Z) None.
Proof.
  apply (format_log_message_censors sample_leak sample_token); reflexivity.
Defined.

(** Counterexample to C7 as it stands: for an hmac written with the
    placeholder character the log message shows the hmac, and with it the
    whole token. *)
Lemma format_log_message_shows_x_hmac :
  find_token_in_message sample_x_leak = Ok (Some sample_x_token) /\
  exists text,
    format_log_message sample_x_leak sample_x_token (Some 123%Z) None = Ok text /\
    contains (hmac sample_x_token) text /\
    contains (m_content sample_x_leak) text.
Proof.
  split; [vm_compute; reflexivity|].
  eexists. split; [vm_compute; reflexivity|]. split.
  - exists (pystr "Censored a seemingly valid token sent by bob#0001 (`42`) in <#5>, token was `MTIz.XsyRkw."),
      (pystr "`" ++ NL ++ pystr "The token user_id decodes into 123.").
    vm_compute. reflexivity.
  - exists (pystr "Censored a seemingly valid token sent by bob#0001 (`42`) in <#5>, token was `"),
      (pystr "`" ++ NL ++ pystr "The token user_id decodes into 123.").
    vm_compute. reflexivity.
Qed.

(** ** The attachment rule *)

Lemma relevant_sequence_eq (latest : Message) (window : list Message) :
  Attachments.relevant_messages latest window = relevant_sequence latest window.
Proof.
  unfold Attachments.relevant_messages, relevant_sequence. simpl. f_equal.
  induction window as [|m window IH]; [reflexivity|].
  rewrite filter_cons. simpl. rewrite IH. unfold user_eqb.
  destruct (Z.eqb_spec (u_id (m_author m)) (u_id (m_author latest))) as [He|He];
    destruct (Nat.ltb_spec 0 (length (m_attachments m))) as [Hl|Hl]; simpl;
    case_decide; (reflexivity || tauto || lia).
Qed.

Lemma attachment_count_eq (msgs : list Message) :
  Attachments.total_recent_attachments msgs = attachment_count msgs.
Proof.
  unfold Attachments.total_recent_attachments, attachment_count. f_equal.
Qed.

Lemma remove_dups_NoDup {A} `{EqDecision A} (l : list A) :
  NoDup l -> remove_dups l = l.
Proof.
  induction 1 as [|x l Hx _ IH]; simpl; [reflexivity|].
  destruct (decide_rel elem_of x l); [contradiction|]. rewrite IH. reflexivity.
Qed.

Lemma relevant_sequence_NoDup (latest : Message) (window : list Message) :
  NoDup (latest :: window) -> NoDup (relevant_sequence latest window).
Proof.
  intros [Hl Hw]%NoDup_cons. unfold relevant_sequence. apply NoDup_cons. split.
  - rewrite list_elem_of_filter. tauto.
  - apply NoDup_filter, Hw.
Qed.

(** Where the window holds no message twice and does not hold the latest
    message, [apply] does what the rule's description says: it sums the
    attachments over the set of the latest message and the messages of
    the window by the same author that carry an attachment, and returns
    a violation exactly when the sum is greater than [max], with the
    reason [sent <sum> attachments in <max>s], the author of the latest
    message and that set. *)
Lemma apply_distinct_messages (latest : Message) (window : list Message)
    (config : gmap str Z) (max : Z) :
  config !! pystr "max" = Some max ->
  NoDup (latest :: window) ->
  let msgs := relevant_subset latest window in
  let total := attachment_count msgs in
  ((max < total)%Z ->
   Attachments.apply latest window config =
     Ok (Some (pystr "sent " ++ str_of_int total ++ pystr " attachments in "
               ++ str_of_int max ++ pystr "s",
               [m_author latest], msgs))) /\
  ((total <= max)%Z -> Attachments.apply latest window config = Ok None).
Proof.
  intros Hmax Hnd msgs total.
  assert (Hmsgs : msgs = relevant_sequence latest window)
    by apply remove_dups_NoDup, relevant_sequence_NoDup, Hnd.
  unfold Attachments.apply, Attachments.config_get.
  rewrite Hmax. unfold_bind.
  rewrite relevant_sequence_eq, attachment_count_eq, <- Hmsgs. fold total.
  rewrite Z.gtb_ltb. split.
  - intros Hcmp. apply Z.ltb_lt in Hcmp. rewrite Hcmp. reflexivity.
  - intros Hcmp. apply Z.ltb_ge in Hcmp. rewrite Hcmp. reflexivity.
Qed.

Lemma apply_distinct_messages_example :
  Attachments.apply (sample_M0 3) [sample_M1; sample_M2] sample_config =
    Ok (Some (pystr "sent 6 attachments in 5s", [sample_author],
              [sample_M0 3; sample_M1]))
  /\ Attachments.apply (sample_M0 2) [sample_M1; sample_M2] sample_config = Ok None.
Proof.
  assert (Hnd : forall n, NoDup (sample_M0 n :: [sample_M1; sample_M2])).
  { intros n. repeat (apply NoDup_cons; split);
      [rewrite !elem_of_cons, elem_of_nil; intros [H|[H|[]]]; discriminate H
      |rewrite !elem_of_cons, elem_of_nil; intros [H|[]]; discriminate H
      |rewrite elem_of_nil; tauto
      |apply NoDup_nil; exact I]. }
  split.
  - apply (apply_distinct_messages (sample_M0 3) [sample_M1; sample_M2]
             sample_config 5 eq_refl (Hnd 3)). reflexivity.
  - apply (apply_distinct_messages (sample_M0 2) [sample_M1; sample_M2]
             sample_config 5 eq_refl (Hnd 2)). vm_compute. discriminate.
Qed.

(** Where the window holds the latest message, once, and no other message
    twice, the set of relevant messages is the part of the window by the
    same author with an attachment, while [apply] sums over that part and
    the latest message once more: its total is the total of the set plus
    the attachments of the latest message. *)
Lemma apply_total_latest_in_window (latest : Message) (window : list Message) :
  NoDup window ->
  latest ∈ window ->
  0 < length (m_attachments latest) ->
  attachment_count (Attachments.relevant_messages latest window) =
    (attachment_count (relevant_subset latest window)
     + Z.of_nat (length (m_attachments latest)))%Z.
Proof.
  intros Hnd Hin Hatt. rewrite relevant_sequence_eq.
  unfold relevant_subset, relevant_sequence. simpl.
  destruct (decide_rel elem_of latest _) as [_|Hout].
  - rewrite (remove_dups_NoDup _ (NoDup_filter _ _ Hnd)).
    unfold attachment_count. simpl. lia.
  - exfalso. apply Hout. rewrite list_elem_of_filter. tauto.
Qed.

(** C2, a defect of the code: the docstring of the module reads "Detects
    total attachments exceeding the limit sent by a single user", and the
    claim sums over the set of the latest message and the messages of the
    window by the same author.  The code concatenates two lists instead,
    so a window that holds the latest message makes it count twice.  With
    [max = 5], [M0] of 2 attachments as the latest message and the window
    [M0, M1, M2], where [M1] has 3 by the same author and [M2] one by
    another, the set is [M0, M1] with 5 attachments, not more than [max],
    and the claim gives no violation; [apply] returns a violation for 7
    attachments over the messages [M0, M0, M1].  With [M0] of 3
    attachments alone in the window, the user sent 3 and [apply] reports
    6. *)
Theorem apply_counts_latest_twice :
  (relevant_subset (sample_M0 2) [sample_M0 2; sample_M1; sample_M2] =
     [sample_M0 2; sample_M1] /\
   attachment_count
     (relevant_subset (sample_M0 2) [sample_M0 2; sample_M1; sample_M2]) = 5%Z /\
   sample_config !! pystr "max" = Some 5%Z /\
   Attachments.apply (sample_M0 2) [sample_M0 2; sample_M1; sample_M2]
     sample_config =
     Ok (Some (pystr "sent 7 attachments in 5s", [sample_author],
               [sample_M0 2; sample_M0 2; sample_M1]))) /\
  (relevant_subset (sample_M0 3) [sample_M0 3] = [sample_M0 3] /\
   attachment_count (relevant_subset (sample_M0 3) [sample_M0 3]) = 3%Z /\
   Attachments.apply (sample_M0 3) [sample_M0 3] sample_config =
     Ok (Some (pystr "sent 6 attachments in 5s", [sample_author],
               [sample_M0 3; sample_M0 3]))).
Proof. repeat split; vm_compute; reflexivity. Qed.

(** ** UTF-8 and ASCII *)

Lemma lt_128_shiftr (x : N) : (x < 128)%N <-> N.shiftr x 7 = 0%N.
Proof.
  rewrite N.shiftr_div_pow2. change (2 ^ 7)%N with 128%N.
  rewrite N.div_small_iff by discriminate. reflexivity.
Qed.

Lemma lor_lt_128 (a b : N) : (N.lor a b < 128)%N -> (a < 128)%N /\ (b < 128)%N.
Proof.
  rewrite !lt_128_shiftr, N.shiftr_lor. apply N.lor_eq_0_iff.
Qed.

Lemma land_31 (b : N) : N.land b 31 = (b mod 32)%N.
Proof. change 31%N with (N.ones 5). apply N.land_ones. Qed.

Lemma land_15 (b : N) : N.land b 15 = (b mod 16)%N.
Proof. change 15%N with (N.ones 4). apply N.land_ones. Qed.

Lemma land_7 (b : N) : N.land b 7 = (b mod 8)%N.
Proof. change 7%N with (N.ones 3). apply N.land_ones. Qed.

Lemma low6_mod (b : N) : Utf8.low6 b = (b mod 64)%N.
Proof. unfold Utf8.low6. change 63%N with (N.ones 6). apply N.land_ones. Qed.

Lemma between_spec (lo hi b : N) :
  Utf8.between lo hi b = true <-> (lo <= b <= hi)%N.
Proof. unfold Utf8.between. rewrite andb_true_iff, !N.leb_le. reflexivity. Qed.

Ltac mod_facts a m :=
  let Hd := fresh "Hdiv" in
  let Hm := fresh "Hmod" in
  pose proof (N.div_mod a m ltac:(discriminate)) as Hd;
  pose proof (N.mod_lt a m ltac:(discriminate)) as Hm;
  generalize dependent (a / m)%N; generalize dependent (a mod m)%N; intros.

(** A sequence of two, three or four bytes decodes to a code point
    outside ASCII. *)
Lemma utf8_two_bytes (b0 x : N) :
  (194 <= b0 <= 223)%N ->
  ~ (N.lor (N.shiftl (N.land b0 31) 6) x < 128)%N.
Proof.
  intros Hb [H _]%lor_lt_128.
  rewrite N.shiftl_mul_pow2, land_31 in H. change (2 ^ 6)%N with 64%N in H.
  mod_facts b0 32%N. lia.
Qed.

Lemma utf8_three_bytes (b0 b1 x : N) :
  (224 <= b0 <= 239)%N ->
  ((if (b0 =? 224)%N then 160 else 128) <= b1 <= 191)%N ->
  ~ (N.lor (N.shiftl (N.land b0 15) 12)
       (N.lor (N.shiftl (Utf8.low6 b1) 6) x) < 128)%N.
Proof.
  intros Hb0 Hb1 [H0 [H1 _]%lor_lt_128]%lor_lt_128.
  rewrite N.shiftl_mul_pow2, land_15 in H0.
  rewrite N.shiftl_mul_pow2, low6_mod in H1.
  change (2 ^ 12)%N with 4096%N in H0. change (2 ^ 6)%N with 64%N in H1.
  destruct (N.eqb_spec b0 224); mod_facts b0 16%N; mod_facts b1 64%N; lia.
Qed.

Lemma utf8_four_bytes (b0 b1 x : N) :
  (240 <= b0 <= 244)%N ->
  ((if (b0 =? 240)%N then 144 else 128) <= b1 <= 191)%N ->
  ~ (N.lor (N.shiftl (N.land b0 7) 18)
       (N.lor (N.shiftl (Utf8.low6 b1) 12) x) < 128)%N.
Proof.
  intros Hb0 Hb1 [H0 [H1 _]%lor_lt_128]%lor_lt_128.
  rewrite N.shiftl_mul_pow2, land_7 in H0.
  rewrite N.shiftl_mul_pow2, low6_mod in H1.
  change (2 ^ 18)%N with 262144%N in H0. change (2 ^ 12)%N with 4096%N in H1.
  destruct (N.eqb_spec b0 240); mod_facts b0 8%N; mod_facts b1 64%N; lia.
Qed.

(** Bytes that decode to ASCII text are that text. *)
Lemma utf8_decode_ascii (b : bytes) (s : str) :
  Utf8.decode b = Ok s -> str_isascii s = true -> s = b.
Proof.
  remember (length b) as n eqn:Hn. revert b Hn s.
  induction n as [n IH] using lt_wf_ind. intros b Hn s.
  destruct b as [|b0 r0]; [intros [= <-]; reflexivity|].
  simpl in Hn. cbn [Utf8.decode]. unfold_bind.
  destruct (b0 <? 128)%N eqn:H0.
  { destruct (Utf8.decode r0) as [s'|] eqn:Hd; [|discriminate].
    intros [= <-] [_ Hs]%andb_true_iff. f_equal.
    eapply (IH (length r0)); [lia|reflexivity|exact Hd|exact Hs]. }
  destruct (Utf8.between 194 223 b0) eqn:H2.
  { apply between_spec in H2.
    destruct r0 as [|b1 r1]; [discriminate|].
    destruct (Utf8.cont b1); [|discriminate].
    destruct (Utf8.decode r1); [|discriminate].
    intros [= <-] [Hh%N.ltb_lt _]%andb_true_iff.
    exfalso. eapply utf8_two_bytes; eassumption. }
  destruct (Utf8.between 224 239 b0) eqn:H3.
  { apply between_spec in H3.
    destruct r0 as [|b1 [|b2 r2]]; try discriminate.
    destruct (Utf8.between _ _ b1) eqn:Hb1; [|discriminate].
    apply between_spec in Hb1.
    destruct (Utf8.cont b2); [|discriminate]. cbn [andb].
    destruct (Utf8.decode r2); [|discriminate].
    intros [= <-] [Hh%N.ltb_lt _]%andb_true_iff.
    exfalso. eapply (utf8_three_bytes b0 b1); [exact H3| |exact Hh].
    destruct (b0 =? 224)%N, (b0 =? 237)%N; lia. }
  destruct (Utf8.between 240 244 b0) eqn:H4; [|discriminate].
  apply between_spec in H4.
  destruct r0 as [|b1 [|b2 [|b3 r3]]]; try discriminate.
  destruct (Utf8.between _ _ b1) eqn:Hb1; [|discriminate].
  apply between_spec in Hb1.
  destruct (Utf8.cont b2); [|discriminate].
  destruct (Utf8.cont b3); [|discriminate]. cbn [andb].
  destruct (Utf8.decode r3); [|discriminate].
  intros [= <-] [Hh%N.ltb_lt _]%andb_true_iff.
  exfalso. eapply (utf8_four_bytes b0 b1); [exact H4| |exact Hh].
  destruct (b0 =? 240)%N, (b0 =? 244)%N; lia.
Qed.

(** ASCII bytes decode to themselves. *)
Lemma utf8_decode_of_ascii (b : bytes) :
  str_isascii b = true -> Utf8.decode b = Ok b.
Proof.
  induction b as [|b0 r IH]; [reflexivity|].
  intros [H0 Hr]%andb_true_iff. cbn [Utf8.decode]. rewrite H0.
  rewrite (IH Hr). reflexivity.
Qed.

(** [extract_user_id] in terms of the decoded bytes: it returns an integer
    exactly when they are the codes of decimal digits. *)
Lemma extract_user_id_bytes (fragment : str) (n : Z) :
  extract_user_id fragment = Ok (Some n) <->
  exists decoded,
    Base64.urlsafe_b64decode (pad_base64 fragment) = Ok decoded /\
    ascii_digits decoded /\ n = decimal_value decoded.
Proof.
  rewrite extract_user_id_unfold.
  destruct (Base64.urlsafe_b64decode (pad_base64 fragment)) as [decoded|e].
  - split.
    + destruct (Utf8.decode decoded) as [text|] eqn:Hd; [|discriminate].
      destruct (str_isascii text && str_isdigit text) eqn:Ht; [|discriminate].
      intros [= <-]. exists decoded.
      pose proof Ht as [Ha _]%andb_true_iff.
      rewrite <- (utf8_decode_ascii _ _ Hd Ha).
      apply isascii_isdigit_spec in Ht.
      auto using int_of_digits_value.
    + intros (d & [= <-] & Hdig & ->).
      pose proof Hdig as [Ha Hdg]%isascii_isdigit_spec%andb_true_iff.
      rewrite (utf8_decode_of_ascii _ Ha), Ha, Hdg. simpl.
      rewrite int_of_digits_value. reflexivity.
  - split; [discriminate|]. intros (d & [=] & _).
Qed.

(** * Further properties *)

(** ** The attachment rule *)

Lemma apply_unfold (latest : Message) (window : list Message)
    (config : gmap str Z) :
  Attachments.apply latest window config =
    match config !! pystr "max" with
    | None => Raise KeyError
    | Some max =>
        let msgs := relevant_sequence latest window in
        let total := attachment_count msgs in
        if (max <? total)%Z
        then Ok (Some (violation_reason total max, [m_author latest], msgs))
        else Ok None
    end.
Proof.
  unfold Attachments.apply, Attachments.config_get.
  destruct (config !! pystr "max") as [max|]; [|reflexivity].
  unfold_bind. rewrite relevant_sequence_eq, attachment_count_eq, Z.gtb_ltb.
  reflexivity.
Qed.

Lemma attachment_count_sequence (latest : Message) (window : list Message) :
  attachment_count (relevant_sequence latest window) =
    Z.of_nat (length (m_attachments latest) + window_total latest window).
Proof. reflexivity. Qed.

Lemma is_violation_iff (latest : Message) (window : list Message)
    (config : gmap str Z) (max : Z) :
  config !! pystr "max" = Some max ->
  is_violation (Attachments.apply latest window config) <->
  (max < Z.of_nat (length (m_attachments latest) + window_total latest window))%Z.
Proof.
  intros Hmax. rewrite apply_unfold, Hmax. cbv zeta.
  rewrite attachment_count_sequence. unfold is_violation.
  destruct (Z.ltb_spec max
    (Z.of_nat (length (m_attachments latest) + window_total latest window))).
  - split; eauto.
  - split; [intros [d [=]] | lia].
Qed.

(** X1: without the key [max] in the configuration [apply] raises
    [KeyError], whatever the messages are. *)
Theorem apply_missing_max (latest : Message) (window : list Message)
    (config : gmap str Z) :
  config !! pystr "max" = None ->
  Attachments.apply latest window config = Raise KeyError.
Proof. intros Hmax. rewrite apply_unfold, Hmax. reflexivity. Qed.

Lemma apply_missing_max_witness :
  Attachments.apply (sample_M0 3) [sample_M1] (∅ : gmap str Z) = Raise KeyError.
Proof.
  apply apply_missing_max. reflexivity.
Defined.

(** X2: a message of the window by another author, or without
    attachment, does not change what [apply] returns. *)
Theorem apply_ignores_irrelevant (latest m : Message)
    (before after : list Message) (config : gmap str Z) :
  u_id (m_author m) <> u_id (m_author latest) \/ m_attachments m = [] ->
  Attachments.apply latest (before ++ m :: after) config =
  Attachments.apply latest (before ++ after) config.
Proof.
  intros Hm. rewrite !apply_unfold.
  assert (Hseq : relevant_sequence latest (before ++ m :: after)
                 = relevant_sequence latest (before ++ after)).
  { unfold relevant_sequence. f_equal. rewrite !filter_app. f_equal.
    apply filter_cons_False. intros [Ha Hl].
    destruct Hm as [Hm | Hm]; [congruence | rewrite Hm in Hl; simpl in Hl; lia]. }
  rewrite Hseq. reflexivity.
Qed.

Lemma apply_ignores_irrelevant_witness :
  Attachments.apply (sample_M0 2) ([sample_M1] ++ sample_M2 :: []) sample_config =
  Attachments.apply (sample_M0 2) ([sample_M1] ++ []) sample_config.
Proof.
  apply apply_ignores_irrelevant. left. discriminate.
Defined.

Lemma window_total_submseteq (latest : Message) (w1 w2 : list Message) :
  w1 ⊆+ w2 -> window_total latest w1 <= window_total latest w2.
Proof.
  unfold window_total.
  induction 1 as [|x l1 l2 _ IH|x y l|x l1 l2 _ IH|l1 l2 l3 _ IH1 _ IH2].
  - reflexivity.
  - rewrite !filter_cons. case_decide; simpl; lia.
  - rewrite !filter_cons. repeat case_decide; simpl; lia.
  - rewrite filter_cons. case_decide; simpl; lia.
  - lia.
Qed.

(** X3: more messages in the window never clear a violation: when
    [apply] reports one for a window, it reports one for every window
    that holds the same messages and possibly others, in any order. *)
Theorem apply_violation_monotone (latest : Message) (w1 w2 : list Message)
    (config : gmap str Z) :
  w1 ⊆+ w2 ->
  is_violation (Attachments.apply latest w1 config) ->
  is_violation (Attachments.apply latest w2 config).
Proof.
  intros Hsub Hv. destruct (config !! pystr "max") as [max|] eqn:Hmax.
  - rewrite is_violation_iff in * by eassumption.
    pose proof (window_total_submseteq latest _ _ Hsub). lia.
  - destruct Hv as [d Hd]. rewrite apply_unfold, Hmax in Hd. discriminate.
Qed.

Lemma apply_violation_monotone_witness :
  is_violation (Attachments.apply (sample_M0 3) [sample_M2; sample_M1; sample_M1]
                  sample_config).
Proof.
  apply (apply_violation_monotone (sample_M0 3) [sample_M1]).
  - apply submseteq_cons, submseteq_skip, submseteq_cons. reflexivity.
  - eexists. vm_compute. reflexivity.
Defined.

(** X4: in a violation the members are the author of the latest message
    alone; the messages start with the latest message and go on with
    messages of the window, in the order of the window, each by that
    author and with at least one attachment; the sum in the reason is the
    attachment total of these messages and exceeds [max]. *)
Theorem apply_violation_shape (latest : Message) (window : list Message)
    (config : gmap str Z) (max : Z) (reason : str) (members : list User)
    (msgs : list Message) :
  config !! pystr "max" = Some max ->
  Attachments.apply latest window config = Ok (Some (reason, members, msgs)) ->
  members = [m_author latest] /\
  (exists others,
     msgs = latest :: others /\ sublist others window /\
     Forall (fun m => u_id (m_author m) = u_id (m_author latest)
                      /\ 0 < length (m_attachments m)) others) /\
  reason = violation_reason (attachment_count msgs) max /\
  (max < attachment_count msgs)%Z.
Proof.
  intros Hmax. rewrite apply_unfold, Hmax. cbv zeta.
  destruct (Z.ltb_spec max (attachment_count (relevant_sequence latest window)))
    as [Hlt|]; [|discriminate].
  intros [= <- <- <-]. split; [reflexivity|]. split; [|auto].
  eexists. split; [reflexivity|]. split.
  - apply sublist_filter.
  - apply Forall_forall. intros m Hm%list_elem_of_filter. tauto.
Qed.

Lemma apply_violation_shape_witness :
  exists others,
    [sample_M0 3; sample_M1] = sample_M0 3 :: others /\
    sublist others [sample_M1; sample_M2].
Proof.
  destruct (apply_violation_shape (sample_M0 3) [sample_M1; sample_M2]
              sample_config 5 (pystr "sent 6 attachments in 5s")
              [sample_author] [sample_M0 3; sample_M1] eq_refl eq_refl)
    as (_ & (others & Ho & Hs & _) & _).
  exists others. auto.
Defined.

(** X5: the order of the window does not matter to the verdict: for two
    windows with the same messages [apply] returns [None] for both, or
    violations with the same reason and members whose messages are the
    same up to order. *)
Theorem apply_window_order (latest : Message) (w1 w2 : list Message)
    (config : gmap str Z) :
  w1 ≡ₚ w2 ->
  match Attachments.apply latest w1 config, Attachments.apply latest w2 config with
  | Ok None, Ok None => True
  | Ok (Some (r1, u1, m1)), Ok (Some (r2, u2, m2)) =>
      r1 = r2 /\ u1 = u2 /\ m1 ≡ₚ m2
  | Raise e1, Raise e2 => e1 = e2
  | _, _ => False
  end.
Proof.
  intros Hp. rewrite !apply_unfold.
  destruct (config !! pystr "max") as [max|]; [|reflexivity]. cbv zeta.
  assert (Hseq : relevant_sequence latest w1 ≡ₚ relevant_sequence latest w2).
  { unfold relevant_sequence. rewrite Hp. reflexivity. }
  assert (Hcount : attachment_count (relevant_sequence latest w1)
                   = attachment_count (relevant_sequence latest w2)).
  { unfold attachment_count. rewrite Hseq. reflexivity. }
  rewrite Hcount. destruct (max <? _)%Z; auto.
Qed.

Lemma apply_window_order_witness :
  [sample_M1; sample_M2] ≡ₚ [sample_M2; sample_M1] /\
  match Attachments.apply (sample_M0 3) [sample_M1; sample_M2] sample_config,
        Attachments.apply (sample_M0 3) [sample_M2; sample_M1] sample_config with
  | Ok (Some (r1, u1, m1)), Ok (Some (r2, u2, m2)) =>
      r1 = r2 /\ u1 = u2 /\ m1 ≡ₚ m2
  | _, _ => False
  end.
Proof.
  split; [apply Permutation_swap|].
  pose proof (apply_window_order (sample_M0 3) [sample_M1; sample_M2]
                [sample_M2; sample_M1] sample_config (Permutation_swap _ _ _)) as H.
  exact H.
Defined.

(** X6: a latest message with more attachments than [max] is a violation
    by itself, whatever the window holds. *)
Theorem apply_latest_alone (latest : Message) (window : list Message)
    (config : gmap str Z) (max : Z) :
  config !! pystr "max" = Some max ->
  (max < Z.of_nat (length (m_attachments latest)))%Z ->
  is_violation (Attachments.apply latest window config).
Proof. intros Hmax Hlt. rewrite is_violation_iff by eassumption. lia. Qed.

Lemma apply_latest_alone_witness :
  is_violation (Attachments.apply (sample_M0 6) [sample_M2] sample_config).
Proof.
  apply (apply_latest_alone _ _ _ 5); [reflexivity | vm_compute; reflexivity].
Defined.

(** ** The handlers, path by path *)

Lemma format_DELETION_MESSAGE_TEMPLATE (mention : str) :
  str_format DELETION_MESSAGE_TEMPLATE [ (pystr "mention", mention) ] =
  Ok (deletion_notice mention).
Proof. vm_compute. reflexivity. Qed.

Ltac unfold_bot :=
  unfold bot_try_except, call, lift, constants;
  unfold mbind, mret, Bot_bind, Bot_ret.

Ltac bot_step := cbv beta iota.

(** [take_action] up to the answer of the deletion. *)
Lemma take_action_ignore_raises w msg token tr e :
  w_ignore w Event_message_delete (m_id msg) = Raise e ->
  take_action msg token w tr =
    (tr ++ [EIgnore Event_message_delete (m_id msg)], Raise e).
Proof.
  intros H. unfold take_action. unfold_bot. rewrite H. reflexivity.
Qed.

Lemma take_action_delete_raises w msg token tr e :
  w_ignore w Event_message_delete (m_id msg) = Ok tt ->
  w_delete w msg = Raise e ->
  take_action msg token w tr =
    if exn_isinstance e NotFound
    then (tr ++ [ EIgnore Event_message_delete (m_id msg); EDelete msg;
                  ELogDebug (pystr "Failed to remove token in message "
                             ++ str_of_int (m_id msg)
                             ++ pystr ": message already deleted.") ], Ok tt)
    else (tr ++ [EIgnore Event_message_delete (m_id msg); EDelete msg], Raise e).
Proof.
  intros Hi Hd. unfold take_action. unfold_bot. rewrite Hi, Hd. bot_step.
  cbn [existsb]. rewrite orb_false_r.
  destruct (exn_isinstance e NotFound); bot_step; rewrite <- !app_assoc; reflexivity.
Qed.

(** [take_action] once the message is deleted. *)
Lemma take_action_deleted_unfold w msg token tr :
  w_ignore w Event_message_delete (m_id msg) = Ok tt ->
  w_delete w msg = Ok tt ->
  take_action msg token w tr =
    let tr1 := tr ++ [ EIgnore Event_message_delete (m_id msg); EDelete msg;
                       ESend (m_channel msg)
                         (deletion_notice (u_mention (m_author msg))) ] in
    match w_send w (m_channel msg) (deletion_notice (u_mention (m_author msg))) with
    | Raise e => (tr1, Raise e)
    | Ok _ =>
        match extract_user_id (user_id token), m_guild msg with
        | Raise e, _ => (tr1, Raise e)
        | Ok _, None => (tr1, Raise AttributeError)
        | Ok uid, Some g =>
            let member := get_member g uid in
            let text := censored_log msg (user_id token) (timestamp token)
                          (length (hmac token)) uid (u_str <$> member) in
            let alert := token_alert (w_constants w) msg text
                           (bool_decide (is_Some (u_str <$> member))) in
            let tr2 := tr1 ++ [ EGetMember g uid; ELogDebug text;
                                ESendLogMessage alert ] in
            match w_send_log_message w alert with
            | Raise e => (tr2, Raise e)
            | Ok _ =>
                (tr2 ++ [EStatsIncr (pystr "tokens.removed_tokens")],
                 w_stats_incr w (pystr "tokens.removed_tokens"))
            end
        end
    end.
Proof.
  intros Hi Hd. unfold take_action. unfold_bot. rewrite Hi, Hd. bot_step.
  rewrite format_DELETION_MESSAGE_TEMPLATE. bot_step.
  destruct (w_send w _ _) as [[]|e]; bot_step;
    [|rewrite <- !app_assoc; reflexivity].
  destruct (extract_user_id (user_id token)) as [uid|e]; bot_step;
    [|rewrite <- !app_assoc; reflexivity].
  destruct (m_guild msg) as [g|]; bot_step;
    [|rewrite <- !app_assoc; reflexivity].
  rewrite format_log_message_value. bot_step. unfold token_alert.
  destruct (w_send_log_message w _) as [[]|e]; bot_step;
    rewrite <- !app_assoc; reflexivity.
Qed.

Lemma find_token_in_message_returns (msg : Message) :
  returns (find_token_in_message msg).
Proof.
  unfold find_token_in_message.
  destruct (finditer_candidates (m_content msg)) as (l & -> & _).
  destruct (find_token_loop_first_valid l) as (r & -> & _). exists r. reflexivity.
Qed.

(** X7: when every collaborator returns, [take_action] on a guild message
    makes seven calls in this order: the registration with the mod log,
    the deletion, the notice to the author (a fixed text around the
    author's mention), the member lookup for the decoded user id, a debug
    line with the log message, the alert with the same text, which pings
    exactly when the lookup found a member, and the counter increment. *)
Theorem take_action_all_steps (w : World) (msg : Message) (token : Token)
    (tr : list event) (g : Guild) :
  world_returns w -> m_guild msg = Some g ->
  exists uid,
    extract_user_id (user_id token) = Ok uid /\
    let member := get_member g uid in
    let text := censored_log msg (user_id token) (timestamp token)
                  (length (hmac token)) uid (u_str <$> member) in
    take_action msg token w tr =
      (tr ++ [ EIgnore Event_message_delete (m_id msg);
               EDelete msg;
               ESend (m_channel msg) (deletion_notice (u_mention (m_author msg)));
               EGetMember g uid;
               ELogDebug text;
               ESendLogMessage
                 (token_alert (w_constants w) msg text (bool_decide (is_Some member)));
               EStatsIncr (pystr "tokens.removed_tokens") ],
       Ok tt).
Proof.
  intros (Hi & Hd & Hs & Ha & Hc) Hg.
  destruct (extract_user_id_returns (user_id token)) as [uid Huid].
  exists uid. split; [exact Huid|]. cbv zeta.
  rewrite take_action_deleted_unfold by auto. cbv zeta.
  rewrite Hs, Huid, Hg, Ha, Hc. rewrite <- !app_assoc. simpl.
  repeat f_equal. apply bool_decide_ext. rewrite fmap_is_Some. reflexivity.
Qed.

Lemma take_action_all_steps_witness :
  length (fst (take_action sample_leak sample_token (sample_world (Ok tt)) [])) = 7
  /\ snd (take_action sample_leak sample_token (sample_world (Ok tt)) []) = Ok tt.
Proof.
  destruct (take_action_all_steps (sample_world (Ok tt)) sample_leak sample_token
              [] sample_guild) as (uid & _ & ->).
  - repeat split.
  - reflexivity.
  - split; reflexivity.
Defined.

(** X8: an exception that leaves [on_message] was raised by a call on a
    collaborator: decoding, matching and formatting never raise out of
    the handler, and a [NotFound] from the deletion is absorbed. *)
Theorem on_message_raises_from_world (w : World) (msg : Message)
    (tr tr' : list event) (e : exn) :
  on_message msg w tr = (tr', Raise e) -> raised_by_world w e.
Proof.
  unfold on_message.
  destruct (m_guild msg) as [g|] eqn:Hg; [|discriminate]. simpl.
  destruct (u_bot (m_author msg)); [discriminate|].
  unfold lift, mbind, Bot_bind.
  destruct (find_token_in_message_returns msg) as [[token|] ->];
    [|unfold mret, Bot_ret; discriminate].
  destruct (w_ignore w Event_message_delete (m_id msg)) as [[]|e0] eqn:Hi.
  2:{ rewrite (take_action_ignore_raises _ _ _ _ _ Hi). intros [= _ <-].
      left. eauto. }
  destruct (w_delete w msg) as [[]|e0] eqn:Hd.
  2:{ rewrite (take_action_delete_raises _ _ _ _ _ Hi Hd).
      destruct (exn_isinstance e0 NotFound); intros [= _ <-].
      right. left. eauto. }
  rewrite (take_action_deleted_unfold _ _ _ _ Hi Hd). cbv zeta.
  destruct (w_send w _ _) as [[]|e0] eqn:Hs.
  2:{ intros [= _ <-]. right. right. left. eauto. }
  destruct (extract_user_id_returns (user_id token)) as [uid ->]. rewrite Hg.
  destruct (w_send_log_message w _) as [[]|e0] eqn:Ha.
  2:{ intros [= _ <-]. right. right. right. left. eauto. }
  intros [= _ Hc]. right. right. right. right. eauto.
Qed.

Lemma on_message_raises_from_world_witness :
  raised_by_world (sample_world (Raise Forbidden)) Forbidden.
Proof.
  apply (on_message_raises_from_world _ sample_leak []
           [EIgnore Event_message_delete 1; EDelete sample_leak]).
  vm_compute. reflexivity.
Defined.

(** X9: what [take_action] does depends on the hmac of the token through
    its length only: for two tokens with the same user id and timestamp
    fragments and hmacs of equal length, the calls and the outcome are
    the same, in every world. *)
Theorem take_action_hmac_length_only (w : World) (msg : Message)
    (token token' : Token) (tr : list event) :
  user_id token' = user_id token -> timestamp token' = timestamp token ->
  length (hmac token') = length (hmac token) ->
  take_action msg token' w tr = take_action msg token w tr.
Proof.
  intros Hu Ht Hh.
  destruct (w_ignore w Event_message_delete (m_id msg)) as [[]|e] eqn:Hi.
  2:{ rewrite !(take_action_ignore_raises _ _ _ _ _ Hi). reflexivity. }
  destruct (w_delete w msg) as [[]|e] eqn:Hd.
  2:{ rewrite !(take_action_delete_raises _ _ _ _ _ Hi Hd). reflexivity. }
  rewrite !(take_action_deleted_unfold _ _ _ _ Hi Hd), Hu, Ht, Hh. reflexivity.
Qed.

Lemma take_action_hmac_length_only_witness :
  take_action sample_leak (mkToken (pystr "MTIz") (pystr "XsyRkw") (pystr "SECRET1"))
    (sample_world (Ok tt)) [] =
  take_action sample_leak sample_token (sample_world (Ok tt)) [].
Proof.
  apply take_action_hmac_length_only; reflexivity.
Defined.

Ltac not_among H :=
  cbn [app] in H;
  repeat (apply elem_of_cons in H as [H|H]; [discriminate H|]);
  apply elem_of_nil in H; contradiction.

Ltac among :=
  cbn [app];
  repeat first [apply list_elem_of_here | apply list_elem_of_further].

Ltac only_delete_of :=
  let m := fresh "m" in
  let H := fresh "H" in
  intros m H; cbn [app] in H;
  repeat (apply elem_of_cons in H as [H|H];
          [first [discriminate H | injection H as ->; reflexivity]|]);
  apply elem_of_nil in H; contradiction.

(** X10: the counter of removed tokens is incremented last and only
    after the deletion, the notice and the alert all returned: when the
    increment is among the calls of [take_action], the deletion of the
    message returned, and a notice and an alert are among the calls
    whose sending returned. *)
Theorem take_action_counts_last (w : World) (msg : Message) (token : Token)
    (calls : list event) (r : result unit) (name : str) :
  take_action msg token w [] = (calls, r) ->
  EStatsIncr name ∈ calls ->
  w_delete w msg = Ok tt /\
  (exists notice,
     ESend (m_channel msg) notice ∈ calls /\
     w_send w (m_channel msg) notice = Ok tt) /\
  (exists alert,
     ESendLogMessage alert ∈ calls /\ w_send_log_message w alert = Ok tt) /\
  last calls = Some (EStatsIncr (pystr "tokens.removed_tokens")) /\
  r = w_stats_incr w (pystr "tokens.removed_tokens").
Proof.
  destruct (w_ignore w Event_message_delete (m_id msg)) as [[]|e] eqn:Hi.
  2:{ rewrite (take_action_ignore_raises _ _ _ _ _ Hi). intros [= <- _] Hin.
      not_among Hin. }
  destruct (w_delete w msg) as [[]|e] eqn:Hd.
  2:{ rewrite (take_action_delete_raises _ _ _ _ _ Hi Hd).
      destruct (exn_isinstance e NotFound); intros [= <- _] Hin; not_among Hin. }
  rewrite (take_action_deleted_unfold _ _ _ _ Hi Hd). cbv zeta.
  destruct (w_send w _ _) as [[]|e] eqn:Hs; [|intros [= <- _] Hin; not_among Hin].
  destruct (extract_user_id (user_id token)) as [uid|e];
    [|intros [= <- _] Hin; not_among Hin].
  destruct (m_guild msg) as [g|]; [|intros [= <- _] Hin; not_among Hin].
  destruct (w_send_log_message w _) as [[]|e] eqn:Ha;
    [|intros [= <- _] Hin; not_among Hin].
  intros [= <- <-] _. split; [reflexivity|].
  split; [eexists; split; [|exact Hs]; among|].
  split; [eexists; split; [|exact Ha]; among|].
  split; reflexivity.
Qed.

Lemma take_action_counts_last_witness :
  w_delete (sample_world (Ok tt)) sample_leak = Ok tt /\
  last (fst (take_action sample_leak sample_token (sample_world (Ok tt)) []))
    = Some (EStatsIncr (pystr "tokens.removed_tokens")).
Proof.
  destruct (take_action_counts_last (sample_world (Ok tt)) sample_leak sample_token
              (fst (take_action sample_leak sample_token (sample_world (Ok tt)) []))
              (snd (take_action sample_leak sample_token (sample_world (Ok tt)) []))
              (pystr "tokens.removed_tokens"))
    as (Hd & _ & _ & Hl & _).
  - vm_compute. reflexivity.
  - vm_compute. among.
  - split; assumption.
Defined.

(** X11: handling one message deletes at most once, and only the message
    that was given: among the calls of [on_message] there is at most one
    deletion, and it is of that message. *)
Theorem on_message_deletes_once (w : World) (msg : Message)
    (calls : list event) (r : result unit) :
  on_message msg w [] = (calls, r) ->
  length (List.filter is_delete calls) <= 1 /\
  (forall m, EDelete m ∈ calls -> m = msg).
Proof.
  unfold on_message.
  destruct (negb (bool_decide (is_Some (m_guild msg))) || u_bot (m_author msg)).
  { intros [= <- _]. split; [simpl; lia | only_delete_of]. }
  unfold lift, mbind, Bot_bind.
  destruct (find_token_in_message msg) as [[token|]|e];
    [| intros [= <- _]; split; [simpl; lia | only_delete_of]
     | intros [= <- _]; split; [simpl; lia | only_delete_of] ].
  destruct (w_ignore w Event_message_delete (m_id msg)) as [[]|e] eqn:Hi.
  2:{ rewrite (take_action_ignore_raises _ _ _ _ _ Hi). intros [= <- _].
      split; [simpl; lia | only_delete_of]. }
  destruct (w_delete w msg) as [[]|e] eqn:Hd.
  2:{ rewrite (take_action_delete_raises _ _ _ _ _ Hi Hd).
      destruct (exn_isinstance e NotFound); intros [= <- _];
        (split; [simpl; lia | only_delete_of]). }
  rewrite (take_action_deleted_unfold _ _ _ _ Hi Hd). cbv zeta.
  repeat case_match; intros [= <- _]; (split; [simpl; lia | only_delete_of]).
Qed.

Lemma on_message_deletes_once_witness :
  length (List.filter is_delete
            (fst (on_message sample_leak (sample_world (Ok tt)) []))) <= 1.
Proof.
  apply (on_message_deletes_once (sample_world (Ok tt)) sample_leak _
           (snd (on_message sample_leak (sample_world (Ok tt)) []))).
  vm_compute. reflexivity.
Defined.

(** ** Where [find_token_in_message] finds a token, and where not *)

Lemma dots_app (a b : str) : dots (a ++ b) = dots a + dots b.
Proof. unfold dots. rewrite List.filter_app, length_app. reflexivity. Qed.

Lemma dots_cons_dot (s : str) : dots (DOT :: s) = S (dots s).
Proof. reflexivity. Qed.

Lemma dots_token_chars (p : str) : Forall in_token_class p -> dots p = 0.
Proof.
  induction 1 as [|c p Hc _ IH]; [reflexivity|].
  unfold dots in *. simpl. destruct (N.eqb_spec c DOT) as [->|]; [|exact IH].
  apply is_token_char_spec in Hc. discriminate.
Qed.

Lemma matches_here_dots (s : str) : matches_here s -> 2 <= dots s.
Proof.
  intros (p1 & p2 & p3 & rest & -> & _).
  rewrite !dots_app. change (dots [DOT]) with 1. lia.
Qed.

Lemma matches_here_head (s : str) :
  matches_here s -> head_in is_token_char s = true.
Proof.
  intros (p1 & p2 & p3 & rest & -> & [Hne Hp] & _).
  apply head_in_app; [exact Hne | apply Forall_token_class, Hp].
Qed.

Lemma candidates_nil_dots (s : str) : dots s < 2 -> candidates s [].
Proof.
  intros Hd. apply candidates_nil. intros pre suf -> Hm%matches_here_dots.
  rewrite dots_app in Hd. lia.
Qed.

Lemma find_token_of_candidates (msg : Message) (l : list Token) :
  candidates (m_content msg) l ->
  find_token_in_message msg = find_token_loop (map groups_of l).
Proof.
  intros Hl. unfold find_token_in_message.
  destruct (finditer_candidates (m_content msg)) as (l' & -> & _ & Huniq).
  rewrite (Huniq l Hl). reflexivity.
Qed.

(** X12: a text with fewer than two dots holds no token:
    [find_token_in_message] returns [None], and [on_message] makes no
    call on any collaborator. *)
Theorem few_dots_no_token (msg : Message) :
  dots (m_content msg) < 2 ->
  find_token_in_message msg = Ok None /\
  (forall w tr, on_message msg w tr = (tr, Ok tt)).
Proof.
  intros Hd.
  assert (Hnone : find_token_in_message msg = Ok None).
  { rewrite (find_token_of_candidates msg []); [reflexivity|].
    apply candidates_nil_dots, Hd. }
  split; [exact Hnone|]. intros w tr. unfold on_message.
  destruct (negb _ || _); [reflexivity|].
  unfold lift, mbind, Bot_bind. rewrite Hnone. reflexivity.
Qed.

Lemma few_dots_no_token_witness :
  on_message (sample_message sample_author (Some sample_guild) "see docs.python" 0)
    (sample_world (Ok tt)) [] = ([], Ok tt).
Proof.
  apply (few_dots_no_token
           (sample_message sample_author (Some sample_guild) "see docs.python" 0)).
  vm_compute. lia.
Defined.

Lemma first_dot_unique (a b x y : str) :
  a ++ DOT :: x = b ++ DOT :: y -> dots a = 0 -> dots b = 0 -> a = b /\ x = y.
Proof.
  revert b. induction a as [|c a IH]; intros [|d b]; simpl.
  - intros [= ->]. auto.
  - intros [= <- _] _ Hb. rewrite dots_cons_dot in Hb. discriminate.
  - intros [= -> _] Ha. rewrite dots_cons_dot in Ha. discriminate.
  - intros [= -> Heq] Ha Hb.
    change (d :: a) with ([d] ++ a) in Ha. change (d :: b) with ([d] ++ b) in Hb.
    rewrite dots_app in Ha, Hb.
    destruct (IH b Heq ltac:(lia) ltac:(lia)) as [-> ->]. auto.
Qed.

(** A token that stands alone in the text is the first candidate. *)
Lemma isolated_token_found (msg : Message)
    (pre p1 p2 p3 post : str) :
  m_content msg = pre ++ p1 ++ [DOT] ++ p2 ++ [DOT] ++ p3 ++ post ->
  dots pre = 0 -> not_continued (rev pre) ->
  token_part p1 -> token_part p2 -> token_part p3 -> not_continued post ->
  valid_token (mkToken p1 p2 p3) ->
  find_token_in_message msg = Ok (Some (mkToken p1 p2 p3)).
Proof.
  intros Hc Hpre Hend Hp1 Hp2 Hp3 Hpost Hvalid.
  destruct (finditer_candidates post) as (l & _ & Hl & _).
  rewrite (find_token_of_candidates msg (mkToken p1 p2 p3 :: l)).
  { apply find_token_loop_valid, Hvalid. }
  eapply (candidates_cons pre); eauto.
  intros pre1 suf -> Hne (q1 & q2 & q3 & rest & Heq & [_ Hq1] & _).
  rewrite dots_app in Hpre.
  change (suf ++ p1 ++ [DOT] ++ p2 ++ [DOT] ++ p3 ++ post)
    with (suf ++ p1 ++ DOT :: (p2 ++ [DOT] ++ p3 ++ post)) in Heq.
  change (q1 ++ [DOT] ++ q2 ++ [DOT] ++ q3 ++ rest)
    with (q1 ++ DOT :: (q2 ++ [DOT] ++ q3 ++ rest)) in Heq.
  rewrite app_assoc in Heq.
  apply first_dot_unique in Heq as [<- _].
  - apply Forall_app in Hq1 as [Hsuf _].
    rewrite rev_app_distr in Hend.
    destruct suf as [|c suf _] using rev_ind; [congruence|].
    rewrite rev_app_distr in Hend. simpl in Hend.
    apply Forall_app in Hsuf as [_ Hc']. apply Forall_cons in Hc' as [Hc' _].
    contradiction.
  - rewrite dots_app, (dots_token_chars p1) by apply Hp1. lia.
  - apply dots_token_chars, Hq1.
Qed.

(** X13: a valid token that stands alone is found.  When no dot comes
    before it in the text, the character before it (if any) and the
    character after it (if any) are outside the class of token
    characters, and both checks pass, [find_token_in_message] returns
    this token, whatever follows. *)
Theorem find_token_in_message_isolated (msg : Message)
    (pre p1 p2 p3 post : str) :
  m_content msg = pre ++ p1 ++ [DOT] ++ p2 ++ [DOT] ++ p3 ++ post ->
  dots pre = 0 -> not_continued (rev pre) ->
  token_part p1 -> token_part p2 -> token_part p3 -> not_continued post ->
  valid_token (mkToken p1 p2 p3) ->
  find_token_in_message msg = Ok (Some (mkToken p1 p2 p3)).
Proof. apply isolated_token_found. Qed.

Lemma token_part_check (p : str) :
  forallb is_token_char p = true -> p <> [] -> token_part p.
Proof.
  intros Hp Hne. split; [exact Hne|].
  apply Forall_token_class, Forall_forall. intros c Hc%list_elem_of_In.
  revert c Hc. apply forallb_forall, Hp.
Qed.

Ltac solve_token_part := apply token_part_check; [reflexivity | discriminate].

Lemma find_token_in_message_isolated_witness :
  find_token_in_message sample_isolated = Ok (Some sample_token).
Proof.
  apply (find_token_in_message_isolated sample_isolated
           (pystr "my token is ") (pystr "MTIz") (pystr "XsyRkw")
           (pystr "abc-_=x") (pystr " !!")).
  - reflexivity.
  - reflexivity.
  - apply head_in_not_continued. reflexivity.
  - solve_token_part.
  - solve_token_part.
  - solve_token_part.
  - apply head_in_not_continued. reflexivity.
  - split; vm_compute; reflexivity.
Defined.

(** X14: the scan does not look inside a candidate it has consumed.  In
    a text [a.b.p1.p2.p3] with no further dot, the only candidate is
    [a.b.p1]; when it fails the checks [find_token_in_message] returns
    [None], also when [p1.p2.p3] is a valid token. *)
Theorem find_token_in_message_shadowed (msg : Message)
    (a b p1 p2 p3 post : str) :
  m_content msg =
    a ++ [DOT] ++ b ++ [DOT] ++ p1 ++ [DOT] ++ p2 ++ [DOT] ++ p3 ++ post ->
  token_part a -> token_part b -> token_part p1 ->
  token_part p2 -> token_part p3 -> dots post = 0 ->
  ~ valid_token (mkToken a b p1) ->
  find_token_in_message msg = Ok None.
Proof.
  intros Hc Ha Hb Hp1 Hp2 Hp3 Hpost Hinvalid.
  rewrite (find_token_of_candidates msg [mkToken a b p1]).
  { apply find_token_loop_none. constructor; [exact Hinvalid | constructor]. }
  eapply (candidates_cons [] a b p1 ([DOT] ++ p2 ++ [DOT] ++ p3 ++ post));
    eauto.
  - simpl. intros Hd%is_token_char_spec. discriminate.
  - intros pre1 suf Heq Hne. symmetry in Heq.
    apply app_eq_nil in Heq as [_ ->]. congruence.
  - apply candidates_nil. intros [|c pre'] suf Heq.
    + simpl in Heq. subst suf. intros Hm%matches_here_head. discriminate.
    + simpl in Heq. injection Heq as _ Heq.
      intros Hm%matches_here_dots.
      assert (Hd : dots (pre' ++ suf) = 1).
      { rewrite <- Heq, dots_app, dots_cons_dot, dots_app.
        rewrite (dots_token_chars p2), (dots_token_chars p3), Hpost
          by (apply Hp2 || apply Hp3). reflexivity. }
      rewrite dots_app in Hd. lia.
Qed.

Lemma find_token_in_message_shadowed_witness :
  find_token_in_message sample_shadowed = Ok None /\
  valid_token sample_token.
Proof.
  split; [|split; vm_compute; reflexivity].
  apply (find_token_in_message_shadowed sample_shadowed
           (pystr "x") (pystr "y") (pystr "MTIz") (pystr "XsyRkw")
           (pystr "abc-_=x") []).
  - reflexivity.
  - solve_token_part.
  - solve_token_part.
  - solve_token_part.
  - solve_token_part.
  - solve_token_part.
  - reflexivity.
  - intros [Hid _]. vm_compute in Hid. discriminate.
Defined.

(** ** The validators at the edges *)

Lemma forallb_ascii_app (a b : str) :
  forallb (fun c => c <? 128)%N (a ++ b) =
  forallb (fun c => c <? 128)%N a && forallb (fun c => c <? 128)%N b.
Proof. apply forallb_app. Qed.

Lemma urlsafe_b64decode_non_ascii (fragment : str) :
  str_isascii fragment = false ->
  Base64.urlsafe_b64decode (pad_base64 fragment) = Raise ValueError.
Proof.
  intros H. unfold Base64.urlsafe_b64decode, Base64.bytes_from_decode_data.
  unfold pad_base64. rewrite forallb_ascii_app.
  unfold str_isascii in H. rewrite H. reflexivity.
Qed.

(** X15: a fragment with a character outside ASCII is rejected by every
    validator, without an exception: [extract_user_id] returns [None],
    [is_valid_user_id] and [is_valid_timestamp] return [False]. *)
Theorem validators_reject_non_ascii (fragment : str) :
  str_isascii fragment = false ->
  extract_user_id fragment = Ok None /\
  is_valid_user_id fragment = Ok false /\
  is_valid_timestamp fragment = Ok false.
Proof.
  intros H%urlsafe_b64decode_non_ascii.
  assert (He : extract_user_id fragment = Ok None)
    by (rewrite extract_user_id_unfold, H; reflexivity).
  split; [exact He|]. split.
  - unfold is_valid_user_id. rewrite He. reflexivity.
  - rewrite is_valid_timestamp_unfold, H. reflexivity.
Qed.

Lemma validators_reject_non_ascii_witness :
  extract_user_id [77; 84; 233; 122]%N = Ok None /\
  is_valid_user_id [77; 84; 233; 122]%N = Ok false /\
  is_valid_timestamp [77; 84; 233; 122]%N = Ok false.
Proof.
  apply validators_reject_non_ascii. reflexivity.
Defined.

Lemma decimal_value_nonneg (s : str) :
  Forall (fun c => 48 <= c <= 57)%N s -> (0 <= decimal_value s)%Z.
Proof.
  induction 1 as [|c s Hc _ IH]; simpl; [lia|].
  assert (0 <= 10 ^ Z.of_nat (length s))%Z by (apply Z.pow_nonneg; lia).
  nia.
Qed.

(** X16: a decoded user id is never negative, and an id that
    [is_valid_user_id] accepts is positive. *)
Theorem user_id_sign (fragment : str) :
  (forall n, extract_user_id fragment = Ok (Some n) -> (0 <= n)%Z) /\
  (is_valid_user_id fragment = Ok true ->
   exists n, extract_user_id fragment = Ok (Some n) /\ (0 < n)%Z).
Proof.
  assert (Hnn : forall n, extract_user_id fragment = Ok (Some n) -> (0 <= n)%Z).
  { intros n (decoded & _ & [_ Hd] & ->)%extract_user_id_bytes.
    apply decimal_value_nonneg, Hd. }
  split; [exact Hnn|].
  intros (n & Hn & Hne)%is_valid_user_id_true. exists n.
  split; [exact Hn|]. specialize (Hnn n Hn). lia.
Qed.

Lemma user_id_sign_witness :
  exists n, extract_user_id (pystr "MDA3") = Ok (Some n) /\ (0 < n)%Z.
Proof.
  apply (user_id_sign (pystr "MDA3")). reflexivity.
Defined.

(** The decoder gives at most six bits of output per character read. *)
Lemma a2b_loop_output_bound (data : bytes) (st : Base64.a2b_state) :
  (8 * N.of_nat (length (Base64.bin_data (Base64.a2b_loop data st)))
   + Base64.leftbits (Base64.a2b_loop data st)
   <= 8 * N.of_nat (length (Base64.bin_data st)) + Base64.leftbits st
      + 6 * N.of_nat (length data))%N.
Proof.
  revert st. induction data as [|c data IH]; intros st.
  - simpl. lia.
  - cbn [Base64.a2b_loop]. rewrite length_cons.
    repeat case_match;
      try match goal with
          | H : (8 <=? _)%N = true |- _ => apply N.leb_le in H
          end;
      try (etransitivity; [apply IH|]; cbn [Base64.bin_data Base64.leftbits];
           rewrite ?length_app; cbn [length]; lia).
    cbn [Base64.bin_data Base64.leftbits]. lia.
Qed.

Lemma big_endian_value_bound (b : bytes) :
  Forall (fun x => x < 256)%N b ->
  (big_endian_value b < 256 ^ Z.of_nat (length b))%Z.
Proof.
  induction 1 as [|x b Hx _ IH]; simpl big_endian_value; [simpl; lia|].
  rewrite length_cons, Nat2Z.inj_succ, Z.pow_succ_r by lia.
  assert (0 < 256 ^ Z.of_nat (length b))%Z by (apply Z.pow_pos_nonneg; lia).
  nia.
Qed.

Lemma length_pad_base64_short (fragment : str) :
  length fragment <= 4 -> length (pad_base64 fragment) <= 4.
Proof.
  intros H. unfold pad_base64, str_mul.
  destruct fragment as [|c0 [|c1 [|c2 [|c3 [|c4 r]]]]]; simpl in *; lia.
Qed.

(** X17: a fragment of at most four characters is never a valid
    timestamp: it decodes to three bytes at most, a value below
    [DISCORD_EPOCH - TOKEN_EPOCH]. *)
Theorem is_valid_timestamp_short (fragment : str) :
  length fragment <= 4 -> is_valid_timestamp fragment = Ok false.
Proof.
  intros Hlen%length_pad_base64_short. rewrite is_valid_timestamp_unfold.
  destruct (Base64.urlsafe_b64decode (pad_base64 fragment)) as [decoded|e] eqn:Hd;
    [|reflexivity].
  f_equal. apply bool_decide_eq_false_2.
  pose proof (urlsafe_b64decode_bytes _ _ Hd) as Hbytes.
  apply big_endian_value_bound in Hbytes.
  assert (Hshort : length decoded <= 3).
  { revert Hd. unfold Base64.urlsafe_b64decode, Base64.bytes_from_decode_data,
      Base64.b64decode, Base64.a2b_base64. unfold_bind.
    destruct (forallb _ _); [|discriminate].
    destruct (_ =? 0)%N; [|discriminate]. intros [= <-].
    pose proof (a2b_loop_output_bound
                  (map Base64.urlsafe_decode_translation (pad_base64 fragment))
                  Base64.a2b_init) as Hb.
    rewrite length_map in Hb. cbn [Base64.a2b_init Base64.bin_data
      Base64.leftbits length] in Hb. lia. }
  rewrite int_from_bytes_big_value.
  assert (256 ^ Z.of_nat (length decoded) <= 256 ^ 3)%Z
    by (apply Z.pow_le_mono_r; lia).
  unfold TOKEN_EPOCH, DISCORD_EPOCH. change (256 ^ 3)%Z with 16777216%Z in *. lia.
Qed.

Lemma is_valid_timestamp_short_witness :
  is_valid_timestamp (pystr "____") = Ok false.
Proof.
  apply is_valid_timestamp_short. simpl. lia.
Defined.

(** ** The base64 decoder on the URL-safe alphabet *)

Lemma N_below_forallb (P : N -> bool) (n : nat) :
  forallb P (map N.of_nat (seq 0 n)) = true ->
  forall x, (x < N.of_nat n)%N -> P x = true.
Proof.
  intros H x Hx. rewrite forallb_forall in H. apply H.
  apply in_map_iff. exists (N.to_nat x).
  split; [apply N2Nat.id | apply in_seq; lia].
Qed.

Lemma a2b_loop_data c v rest st :
  decodes_to c = Some v ->
  Base64.a2b_loop (Base64.urlsafe_decode_translation c :: rest) st =
  Base64.a2b_loop rest (a2b_step v st).
Proof.
  unfold decodes_to. cbn [Base64.a2b_loop].
  destruct (_ || _); [discriminate|].
  destruct (_ =? Base64.BASE64_PAD)%N; [discriminate|].
  intros ->. unfold a2b_step. destruct (8 <=? _)%N; reflexivity.
Qed.

Lemma is_b64_char_below (c : N) : is_b64_char c = true -> (c < 128)%N.
Proof.
  unfold is_b64_char, is_word_ascii.
  rewrite !orb_true_iff, !andb_true_iff, !N.leb_le, !N.eqb_eq. lia.
Qed.

Lemma is_b64_char_decodes (c : N) :
  is_b64_char c = true -> exists v, decodes_to c = Some v /\ (v < 64)%N.
Proof.
  intros Hc.
  assert (H : implb (is_b64_char c)
                (match decodes_to c with
                 | Some v => (v <? 64)%N
                 | None => false
                 end) = true).
  { revert c Hc.
    assert (Hall : forall c, (c < N.of_nat 128)%N ->
              implb (is_b64_char c)
                (match decodes_to c with
                 | Some v => (v <? 64)%N
                 | None => false
                 end) = true)
      by (apply N_below_forallb; vm_compute; reflexivity).
    intros c Hc. apply Hall. apply is_b64_char_below in Hc. lia. }
  rewrite Hc in H. simpl in H.
  destruct (decodes_to c) as [v|]; [|discriminate].
  exists v. split; [reflexivity | apply N.ltb_lt, H].
Qed.

Lemma a2b_step_phase v st :
  a2b_phase_ok st ->
  a2b_phase_ok (a2b_step v st) /\
  Base64.quad_pos (a2b_step v st) = ((Base64.quad_pos st + 1) mod 4)%N /\
  (8 * N.of_nat (length (Base64.bin_data (a2b_step v st)))
   + Base64.leftbits (a2b_step v st)
   = 8 * N.of_nat (length (Base64.bin_data st)) + Base64.leftbits st + 6)%N.
Proof.
  destruct st as [lb lc q out]. unfold a2b_phase_ok. simpl.
  intros [Hq Hlb].
  assert (Hcases : (q = 0 \/ q = 1 \/ q = 2 \/ q = 3)%N) by lia.
  destruct Hcases as [-> | [-> | [-> | ->]]]; vm_compute in Hlb; subst lb;
    unfold a2b_step; simpl; rewrite ?length_app; simpl;
    (split; [split; reflexivity | split; [reflexivity | lia]]).
Qed.

Lemma a2b_loop_b64_chars (data : str) (tail : bytes) (st : Base64.a2b_state) :
  forallb is_b64_char data = true -> a2b_phase_ok st ->
  exists st',
    Base64.a2b_loop (map Base64.urlsafe_decode_translation data ++ tail) st =
      Base64.a2b_loop tail st' /\
    a2b_phase_ok st' /\
    Base64.quad_pos st' =
      ((Base64.quad_pos st + N.of_nat (length data)) mod 4)%N /\
    (8 * N.of_nat (length (Base64.bin_data st')) + Base64.leftbits st'
     = 8 * N.of_nat (length (Base64.bin_data st)) + Base64.leftbits st
       + 6 * N.of_nat (length data))%N.
Proof.
  revert st. induction data as [|c data IH]; intros st Hd Hst.
  - exists st. split; [reflexivity|]. split; [exact Hst|]. split.
    + simpl. rewrite N.add_0_r, N.mod_small by apply Hst. reflexivity.
    + simpl. lia.
  - apply andb_true_iff in Hd as [Hc Hd].
    destruct (is_b64_char_decodes c Hc) as (v & Hv & _).
    destruct (a2b_step_phase v st Hst) as (Hph & Hq & Hlen).
    destruct (IH (a2b_step v st) Hd Hph) as (st' & Hloop & Hph' & Hq' & Hlen').
    exists st'. split; [|split; [exact Hph'|split]].
    + cbn [map app]. rewrite (a2b_loop_data c v _ st Hv). exact Hloop.
    + rewrite Hq', Hq, length_cons, Nat2N.inj_succ.
      rewrite N.Div0.add_mod_idemp_l. f_equal. lia.
    + rewrite Hlen', Hlen, length_cons, Nat2N.inj_succ. lia.
Qed.

Lemma pad_base64_padding (fragment : str) :
  pad_base64 fragment = fragment ++ padding_of (length fragment).
Proof.
  unfold pad_base64, padding_of. change (pystr "=") with [61%N].
  rewrite str_mul_char. reflexivity.
Qed.

Lemma map_translation_padding (n : nat) :
  map Base64.urlsafe_decode_translation (padding_of n) = padding_of n.
Proof.
  unfold padding_of. generalize ((4 - n mod 4) mod 4). intros k.
  induction k as [|k IH]; simpl; [reflexivity|]. rewrite IH. reflexivity.
Qed.

Lemma forallb_ascii_padding (n : nat) :
  forallb (fun c => c <? 128)%N (padding_of n) = true.
Proof.
  unfold padding_of. generalize ((4 - n mod 4) mod 4). intros k.
  induction k as [|k IH]; simpl; [reflexivity | exact IH].
Qed.

Lemma forallb_b64_ascii (s : str) :
  forallb is_b64_char s = true -> forallb (fun c => c <? 128)%N s = true.
Proof.
  rewrite !forallb_forall. intros H c Hc.
  apply N.ltb_lt, is_b64_char_below, H, Hc.
Qed.

Lemma a2b_phase_init : a2b_phase_ok Base64.a2b_init.
Proof. split; reflexivity. Qed.

(** The decoder on a fragment of alphabet characters, padded: it fails
    when the length is one more than a multiple of four, and otherwise
    gives three bytes for four characters. *)
Lemma urlsafe_b64decode_b64_chars (fragment : str) :
  forallb is_b64_char fragment = true ->
  match Base64.urlsafe_b64decode (pad_base64 fragment) with
  | Ok decoded =>
      length fragment mod 4 <> 1 /\ length decoded = 3 * length fragment / 4
  | Raise e => length fragment mod 4 = 1 /\ e = BinasciiError
  end.
Proof.
  intros Hd.
  destruct (a2b_loop_b64_chars fragment (padding_of (length fragment))
              Base64.a2b_init Hd a2b_phase_init)
    as ([lb lc q out] & Hloop & [Hq4 Hlb] & Hq & Hlen).
  cbn [Base64.a2b_init Base64.quad_pos Base64.leftbits Base64.bin_data length]
    in Hq, Hlen, Hq4, Hlb.
  unfold Base64.urlsafe_b64decode, Base64.bytes_from_decode_data,
    Base64.b64decode, Base64.a2b_base64. unfold_bind.
  rewrite pad_base64_padding, forallb_ascii_app, (forallb_b64_ascii _ Hd),
    forallb_ascii_padding. cbn [andb].
  rewrite map_app, map_translation_padding, Hloop.
  rewrite N.add_0_l in Hq. rewrite <- (Nat2N.inj_mod _ 4) in Hq.
  unfold padding_of.
  assert (Hcases : length fragment mod 4 = 0 \/ length fragment mod 4 = 1 \/
                   length fragment mod 4 = 2 \/ length fragment mod 4 = 3).
  { pose proof (Nat.mod_upper_bound (length fragment) 4 ltac:(lia)). lia. }
  pose proof (Nat.div_mod_eq (length fragment) 4) as Hn.
  pose proof (Nat.div_mod_eq (3 * length fragment) 4) as Hk.
  pose proof (Nat.mod_upper_bound (3 * length fragment) 4 ltac:(lia)) as Hr.
  remember (3 * length fragment / 4) as k eqn:Ek. clear Ek.
  remember ((3 * length fragment) mod 4) as r eqn:Er. clear Er.
  remember (length fragment / 4) as d eqn:Ed. clear Ed.
  destruct Hcases as [Hm | [Hm | [Hm | Hm]]]; rewrite Hm in Hq, Hn |- *;
    subst q; vm_compute in Hlb; subst lb; simpl; split;
    first [reflexivity | lia].
Qed.

(** X18: for a fragment written in the URL-safe alphabet the length
    decides whether it decodes.  With a length one more than a multiple
    of four the decoder fails and every validator rejects the fragment;
    otherwise the padded fragment decodes, to three bytes for every four
    characters. *)
Theorem b64_fragment_length_law (fragment : str) :
  forallb is_b64_char fragment = true ->
  (length fragment mod 4 = 1 ->
   extract_user_id fragment = Ok None /\
   is_valid_user_id fragment = Ok false /\
   is_valid_timestamp fragment = Ok false) /\
  (length fragment mod 4 <> 1 ->
   exists decoded,
     Base64.urlsafe_b64decode (pad_base64 fragment) = Ok decoded /\
     length decoded = 3 * length fragment / 4).
Proof.
  intros Hd%urlsafe_b64decode_b64_chars.
  destruct (Base64.urlsafe_b64decode (pad_base64 fragment)) as [decoded|e] eqn:He.
  - destruct Hd as [Hm Hlen]. split; [contradiction|]. eauto.
  - destruct Hd as [Hm ->]. split; [|contradiction]. intros _.
    assert (Hx : extract_user_id fragment = Ok None)
      by (rewrite extract_user_id_unfold, He; reflexivity).
    split; [exact Hx|]. split.
    + unfold is_valid_user_id. rewrite Hx. reflexivity.
    + rewrite is_valid_timestamp_unfold, He. reflexivity.
Qed.

Lemma b64_fragment_length_law_witness :
  is_valid_timestamp (pystr "XsyRkwAAA") = Ok false /\
  exists decoded,
    Base64.urlsafe_b64decode (pad_base64 (pystr "XsyRkw")) = Ok decoded /\
    length decoded = 4.
Proof.
  split.
  - apply (b64_fragment_length_law (pystr "XsyRkwAAA")); reflexivity.
  - apply (b64_fragment_length_law (pystr "XsyRkw")); [reflexivity|].
    vm_compute. discriminate.
Defined.

(** ** Round trip: what is written in base64 is read back *)

Lemma N_below_forallb2 (P : N -> N -> bool) (n m : nat) :
  forallb (fun x => forallb (P x) (map N.of_nat (seq 0 m)))
    (map N.of_nat (seq 0 n)) = true ->
  forall x y, (x < N.of_nat n)%N -> (y < N.of_nat m)%N -> P x y = true.
Proof.
  intros H x y Hx Hy.
  apply (N_below_forallb (P x) m); [|exact Hy].
  apply (N_below_forallb (fun x => forallb (P x) (map N.of_nat (seq 0 m))) n);
    assumption.
Qed.

Lemma b64_urlsafe_char_decodes (v : N) :
  (v < 64)%N ->
  decodes_to (b64_urlsafe_char v) = Some v /\
  is_b64_char (b64_urlsafe_char v) = true.
Proof.
  intros Hv.
  assert (H : bool_decide (decodes_to (b64_urlsafe_char v) = Some v)
              && is_b64_char (b64_urlsafe_char v) = true).
  { revert v Hv. apply (N_below_forallb _ 64). vm_compute. reflexivity. }
  apply andb_true_iff in H as [H1%bool_decide_eq_true H2]. auto.
Qed.

Lemma a2b_state_is_eq st lb lc q byte :
  a2b_state_is st lb lc q byte = true -> st = Base64.A2B lb lc q [byte].
Proof.
  destruct st as [lb' lc' q' out]. unfold a2b_state_is. simpl.
  rewrite !andb_true_iff, !N.eqb_eq. intros [[[-> ->] ->] Hout].
  destruct out as [|x [|y out]]; try discriminate.
  apply N.eqb_eq in Hout as ->. reflexivity.
Qed.

Lemma a2b_step_out v lb lc q out :
  a2b_step v (Base64.A2B lb lc q out) =
    let s := a2b_step v (Base64.A2B lb lc q []) in
    Base64.A2B (Base64.leftbits s) (Base64.leftchar s) (Base64.quad_pos s)
      (out ++ Base64.bin_data s).
Proof.
  unfold a2b_step. cbn [Base64.leftbits Base64.leftchar Base64.quad_pos
    Base64.bin_data]. destruct (8 <=? _)%N; cbv zeta;
    cbn [Base64.leftbits Base64.leftchar Base64.quad_pos Base64.bin_data];
    rewrite ?app_nil_r; reflexivity.
Qed.

Lemma a2b_step_0 v out :
  a2b_step v (Base64.A2B 0 0 0 out) = Base64.A2B 6 v 1 out.
Proof. unfold a2b_step. simpl. destruct v; reflexivity. Qed.

Lemma a2b_step_1 b0 b1 out :
  (b0 < 256)%N -> (b1 < 256)%N ->
  ((b0 mod 4) * 16 + b1 / 16 < 64)%N /\
  a2b_step ((b0 mod 4) * 16 + b1 / 16) (Base64.A2B 6 (b0 / 4) 1 out) =
    Base64.A2B 4 (b1 / 16) 2 (out ++ [b0]).
Proof.
  intros H0 H1.
  assert (H : ((b0 mod 4) * 16 + b1 / 16 <? 64)%N
              && a2b_state_is
                   (a2b_step ((b0 mod 4) * 16 + b1 / 16)
                      (Base64.A2B 6 (b0 / 4) 1 []))
                   4 (b1 / 16) 2 b0 = true).
  { revert b0 b1 H0 H1. apply (N_below_forallb2 _ 256 256).
    vm_compute. reflexivity. }
  apply andb_true_iff in H as [Hv%N.ltb_lt Hs%a2b_state_is_eq].
  split; [exact Hv|]. rewrite a2b_step_out, Hs. reflexivity.
Qed.

Lemma a2b_step_2 b1 b2 out :
  (b1 < 256)%N -> (b2 < 256)%N ->
  ((b1 mod 16) * 4 + b2 / 64 < 64)%N /\
  a2b_step ((b1 mod 16) * 4 + b2 / 64) (Base64.A2B 4 (b1 / 16) 2 out) =
    Base64.A2B 2 (b2 / 64) 3 (out ++ [b1]).
Proof.
  intros H1 H2.
  assert (H : ((b1 mod 16) * 4 + b2 / 64 <? 64)%N
              && a2b_state_is
                   (a2b_step ((b1 mod 16) * 4 + b2 / 64)
                      (Base64.A2B 4 (b1 / 16) 2 []))
                   2 (b2 / 64) 3 b1 = true).
  { revert b1 b2 H1 H2. apply (N_below_forallb2 _ 256 256).
    vm_compute. reflexivity. }
  apply andb_true_iff in H as [Hv%N.ltb_lt Hs%a2b_state_is_eq].
  split; [exact Hv|]. rewrite a2b_step_out, Hs. reflexivity.
Qed.

Lemma a2b_step_3 b2 out :
  (b2 < 256)%N ->
  (b2 / 4 < 64)%N /\ (b2 mod 64 < 64)%N /\
  a2b_step (b2 mod 64) (Base64.A2B 2 (b2 / 64) 3 out) =
    Base64.A2B 0 0 0 (out ++ [b2]).
Proof.
  intros H2.
  assert (H : (b2 / 4 <? 64)%N && (b2 mod 64 <? 64)%N
              && a2b_state_is
                   (a2b_step (b2 mod 64) (Base64.A2B 2 (b2 / 64) 3 []))
                   0 0 0 b2 = true).
  { revert b2 H2. apply (N_below_forallb _ 256). vm_compute. reflexivity. }
  apply andb_true_iff in H as [[Ha%N.ltb_lt Hv%N.ltb_lt]%andb_true_iff
                               Hs%a2b_state_is_eq].
  split; [exact Ha|]. split; [exact Hv|]. rewrite a2b_step_out, Hs. reflexivity.
Qed.

(** The test vectors of RFC 4648, written without padding. *)
Example b64_encode_foobar :
  b64_encode (pystr "f") = pystr "Zg" /\
  b64_encode (pystr "fo") = pystr "Zm8" /\
  b64_encode (pystr "foo") = pystr "Zm9v" /\
  b64_encode (pystr "foob") = pystr "Zm9vYg" /\
  b64_encode (pystr "fooba") = pystr "Zm9vYmE" /\
  b64_encode (pystr "foobar") = pystr "Zm9vYmFy" /\
  b64_encode [251; 255; 191]%N = pystr "-_-_".
Proof. repeat split. Qed.

Lemma list_ind3 {A} (P : list A -> Prop) :
  P [] -> (forall a, P [a]) -> (forall a b, P [a; b]) ->
  (forall a b c r, P r -> P (a :: b :: c :: r)) ->
  forall l, P l.
Proof.
  intros H0 H1 H2 H3 l.
  assert (H : P l /\ (forall a, P (a :: l)) /\ (forall a b, P (a :: b :: l))).
  { induction l as [|c l (IH0 & IH1 & IH2)]; [auto|].
    split; [apply IH1|]. split; [intros a; apply IH2|].
    intros a b. apply H3, IH0. }
  apply H.
Qed.

Lemma padding_of_add4 (n : nat) : padding_of (4 + n) = padding_of n.
Proof.
  unfold padding_of. replace (4 + n) with (n + 1 * 4) by lia.
  rewrite Nat.Div0.mod_add. reflexivity.
Qed.

Lemma b64_encode_chars (bs : bytes) :
  Forall (fun x => x < 256)%N bs -> forallb is_b64_char (b64_encode bs) = true.
Proof.
  induction bs as [|b0|b0 b1|b0 b1 b2 r IH] using list_ind3; intros Hb.
  - reflexivity.
  - apply Forall_cons in Hb as [H0 _].
    destruct (a2b_step_3 b0 [] H0) as (Hv0 & _).
    destruct (a2b_step_1 b0 0 [] H0 ltac:(lia)) as (Hv1 & _).
    change (0 / 16)%N with 0%N in Hv1. rewrite N.add_0_r in Hv1.
    cbn [b64_encode map forallb].
    rewrite (proj2 (b64_urlsafe_char_decodes _ Hv0)),
      (proj2 (b64_urlsafe_char_decodes _ Hv1)). reflexivity.
  - apply Forall_cons in Hb as [H0 [H1 _]%Forall_cons].
    destruct (a2b_step_3 b0 [] H0) as (Hv0 & _).
    destruct (a2b_step_1 b0 b1 [] H0 H1) as (Hv1 & _).
    destruct (a2b_step_2 b1 0 [] H1 ltac:(lia)) as (Hv2 & _).
    change (0 / 64)%N with 0%N in Hv2. rewrite N.add_0_r in Hv2.
    cbn [b64_encode map forallb].
    rewrite (proj2 (b64_urlsafe_char_decodes _ Hv0)),
      (proj2 (b64_urlsafe_char_decodes _ Hv1)),
      (proj2 (b64_urlsafe_char_decodes _ Hv2)). reflexivity.
  - apply Forall_cons in Hb as [H0 [H1 [H2 Hr]%Forall_cons]%Forall_cons].
    destruct (a2b_step_3 b0 [] H0) as (Hv0 & _).
    destruct (a2b_step_1 b0 b1 [] H0 H1) as (Hv1 & _).
    destruct (a2b_step_2 b1 b2 [] H1 H2) as (Hv2 & _).
    destruct (a2b_step_3 b2 [] H2) as (_ & Hv3 & _).
    cbn [b64_encode]. rewrite forallb_app. cbn [map forallb].
    rewrite (proj2 (b64_urlsafe_char_decodes _ Hv0)),
      (proj2 (b64_urlsafe_char_decodes _ Hv1)),
      (proj2 (b64_urlsafe_char_decodes _ Hv2)),
      (proj2 (b64_urlsafe_char_decodes _ Hv3)), (IH Hr). reflexivity.
Qed.

Lemma b64_encode_nonempty (bs : bytes) : bs <> [] -> b64_encode bs <> [].
Proof. destruct bs as [|b0 [|b1 [|b2 r]]]; [congruence|discriminate..]. Qed.

(** The decoder's loop on an encoded text with its padding. *)
Lemma b64_roundtrip_loop (bs : bytes) :
  Forall (fun x => x < 256)%N bs ->
  forall out, exists lc q,
    Base64.a2b_loop
      (map Base64.urlsafe_decode_translation (b64_encode bs)
       ++ padding_of (length (b64_encode bs)))
      (Base64.A2B 0 0 0 out) = Base64.A2B 0 lc q (out ++ bs).
Proof.
  induction bs as [|b0|b0 b1|b0 b1 b2 r IH] using list_ind3; intros Hb out.
  - exists 0%N, 0%N. rewrite (app_nil_r out). reflexivity.
  - apply Forall_cons in Hb as [H0 _].
    destruct (a2b_step_3 b0 [] H0) as (Hv0 & _).
    destruct (a2b_step_1 b0 0 out H0 ltac:(lia)) as (Hv1 & Hs1).
    change (0 / 16)%N with 0%N in Hv1, Hs1. rewrite N.add_0_r in Hv1, Hs1.
    cbn [b64_encode map length app].
    rewrite (a2b_loop_data _ _ _ _ (proj1 (b64_urlsafe_char_decodes _ Hv0))),
      a2b_step_0.
    rewrite (a2b_loop_data _ _ _ _ (proj1 (b64_urlsafe_char_decodes _ Hv1))), Hs1.
    eexists _, _. reflexivity.
  - apply Forall_cons in Hb as [H0 [H1 _]%Forall_cons].
    destruct (a2b_step_3 b0 [] H0) as (Hv0 & _).
    destruct (a2b_step_1 b0 b1 out H0 H1) as (Hv1 & Hs1).
    destruct (a2b_step_2 b1 0 (out ++ [b0]) H1 ltac:(lia)) as (Hv2 & Hs2).
    change (0 / 64)%N with 0%N in Hv2, Hs2. rewrite N.add_0_r in Hv2, Hs2.
    cbn [b64_encode map length app].
    rewrite (a2b_loop_data _ _ _ _ (proj1 (b64_urlsafe_char_decodes _ Hv0))),
      a2b_step_0.
    rewrite (a2b_loop_data _ _ _ _ (proj1 (b64_urlsafe_char_decodes _ Hv1))), Hs1.
    rewrite (a2b_loop_data _ _ _ _ (proj1 (b64_urlsafe_char_decodes _ Hv2))), Hs2.
    eexists _, _. rewrite <- app_assoc. reflexivity.
  - apply Forall_cons in Hb as [H0 [H1 [H2 Hr]%Forall_cons]%Forall_cons].
    destruct (a2b_step_3 b0 [] H0) as (Hv0 & _).
    destruct (a2b_step_1 b0 b1 out H0 H1) as (Hv1 & Hs1).
    destruct (a2b_step_2 b1 b2 (out ++ [b0]) H1 H2) as (Hv2 & Hs2).
    destruct (a2b_step_3 b2 ((out ++ [b0]) ++ [b1]) H2) as (_ & Hv3 & Hs3).
    cbn [b64_encode]. rewrite length_app. cbn [map length].
    rewrite padding_of_add4, map_app. cbn [map app].
    rewrite (a2b_loop_data _ _ _ _ (proj1 (b64_urlsafe_char_decodes _ Hv0))),
      a2b_step_0.
    rewrite (a2b_loop_data _ _ _ _ (proj1 (b64_urlsafe_char_decodes _ Hv1))), Hs1.
    rewrite (a2b_loop_data _ _ _ _ (proj1 (b64_urlsafe_char_decodes _ Hv2))), Hs2.
    rewrite (a2b_loop_data _ _ _ _ (proj1 (b64_urlsafe_char_decodes _ Hv3))), Hs3.
    destruct (IH Hr (((out ++ [b0]) ++ [b1]) ++ [b2])) as (lc & q & ->).
    exists lc, q. rewrite <- !app_assoc. reflexivity.
Qed.

(** Decoding the padded encoding of bytes gives the bytes back. *)
Lemma b64_roundtrip (bs : bytes) :
  Forall (fun x => x < 256)%N bs ->
  Base64.urlsafe_b64decode (pad_base64 (b64_encode bs)) = Ok bs.
Proof.
  intros Hb.
  unfold Base64.urlsafe_b64decode, Base64.bytes_from_decode_data,
    Base64.b64decode, Base64.a2b_base64. unfold_bind.
  rewrite pad_base64_padding, forallb_ascii_app,
    (forallb_b64_ascii _ (b64_encode_chars _ Hb)), forallb_ascii_padding.
  cbn [andb]. rewrite map_app, map_translation_padding.
  destruct (b64_roundtrip_loop bs Hb []) as (lc & q & Hloop).
  unfold Base64.a2b_init. rewrite Hloop. reflexivity.
Qed.

Lemma ascii_digits_bytes (digits : str) :
  ascii_digits digits -> Forall (fun x => x < 256)%N digits.
Proof. intros [_ H]. eapply Forall_impl; [exact H|]. simpl. lia. Qed.

Lemma extract_user_id_encoded (digits : str) :
  ascii_digits digits ->
  extract_user_id (b64_encode digits) = Ok (Some (decimal_value digits)).
Proof.
  intros Hd. apply extract_user_id_bytes. exists digits.
  split; [apply b64_roundtrip, ascii_digits_bytes, Hd|]. auto.
Qed.

Lemma is_valid_timestamp_encoded (bs : bytes) :
  Forall (fun x => x < 256)%N bs ->
  is_valid_timestamp (b64_encode bs) =
    Ok (bool_decide (big_endian_value bs + TOKEN_EPOCH >= DISCORD_EPOCH)%Z).
Proof.
  intros Hb. rewrite is_valid_timestamp_unfold, (b64_roundtrip _ Hb).
  rewrite int_from_bytes_big_value. reflexivity.
Qed.

(** X19: a user id written as decimal digits and put in unpadded URL-safe
    base64 is read back by [extract_user_id], leading zeros included;
    [is_valid_user_id] accepts the fragment exactly when the id is not
    zero. *)
Theorem user_id_round_trip (digits : str) :
  ascii_digits digits ->
  extract_user_id (b64_encode digits) = Ok (Some (decimal_value digits)) /\
  (is_valid_user_id (b64_encode digits) = Ok true <->
   decimal_value digits <> 0%Z).
Proof.
  intros Hd. pose proof (extract_user_id_encoded digits Hd) as Hx.
  split; [exact Hx|]. rewrite is_valid_user_id_true, Hx. split.
  - intros (n & [= <-] & Hn). exact Hn.
  - intros Hn. eauto.
Qed.

Lemma user_id_round_trip_witness :
  extract_user_id (b64_encode (pystr "0123456789")) = Ok (Some 123456789%Z).
Proof.
  apply (user_id_round_trip (pystr "0123456789")).
  apply isascii_isdigit_spec. reflexivity.
Defined.

(** X20: a timestamp written as big-endian bytes and put in unpadded
    URL-safe base64 is accepted by [is_valid_timestamp] exactly when its
    value is at least [DISCORD_EPOCH - TOKEN_EPOCH = 126230400], however
    many bytes it has. *)
Theorem timestamp_round_trip (bs : bytes) :
  Forall (fun x => x < 256)%N bs ->
  (is_valid_timestamp (b64_encode bs) = Ok true <->
   (126230400 <= big_endian_value bs)%Z) /\
  (is_valid_timestamp (b64_encode bs) = Ok false <->
   (big_endian_value bs < 126230400)%Z).
Proof.
  intros Hb. rewrite (is_valid_timestamp_encoded _ Hb).
  unfold TOKEN_EPOCH, DISCORD_EPOCH.
  destruct (decide (big_endian_value bs + 1293840000 >= 1420070400)%Z) as [H|H].
  - rewrite bool_decide_eq_true_2 by exact H.
    split; split; intros H'; first [discriminate H' | reflexivity | lia].
  - rewrite bool_decide_eq_false_2 by exact H.
    split; split; intros H'; first [discriminate H' | reflexivity | lia].
Qed.

Lemma timestamp_round_trip_witness :
  is_valid_timestamp (b64_encode [7; 134; 31; 128]%N) = Ok true /\
  is_valid_timestamp (b64_encode [7; 134; 31; 127]%N) = Ok false.
Proof.
  split.
  - apply (timestamp_round_trip [7; 134; 31; 128]%N).
    + repeat constructor.
    + vm_compute. discriminate.
  - apply (timestamp_round_trip [7; 134; 31; 127]%N).
    + repeat constructor.
    + vm_compute. reflexivity.
Defined.

Lemma is_b64_char_token_char (c : N) :
  is_b64_char c = true -> is_token_char c = true.
Proof.
  unfold is_b64_char, is_token_char. intros ->. reflexivity.
Qed.

Lemma token_part_encoded (bs : bytes) :
  Forall (fun x => x < 256)%N bs -> bs <> [] -> token_part (b64_encode bs).
Proof.
  intros Hb Hne. apply token_part_check; [|apply b64_encode_nonempty, Hne].
  pose proof (b64_encode_chars bs Hb) as H. rewrite forallb_forall in *.
  intros c Hc. apply is_b64_char_token_char, H, Hc.
Qed.

(** X21: a genuine token that stands alone is always found.  For an id
    other than zero written in decimal digits, a timestamp of at least
    [126230400] written in bytes, both in unpadded URL-safe base64, and
    any hmac part, the text [id.timestamp.hmac] with no dot before it and
    no token character next to it makes [find_token_in_message] return
    that token, and [on_message] on a guild message of a user hand it to
    [take_action]. *)
Theorem genuine_token_found (msg : Message) (pre digits ts hmac_ post : str) :
  m_content msg =
    pre ++ b64_encode digits ++ [DOT] ++ b64_encode ts ++ [DOT] ++ hmac_ ++ post ->
  dots pre = 0 -> not_continued (rev pre) ->
  ascii_digits digits -> decimal_value digits <> 0%Z ->
  Forall (fun x => x < 256)%N ts -> (126230400 <= big_endian_value ts)%Z ->
  token_part hmac_ -> not_continued post ->
  let token := mkToken (b64_encode digits) (b64_encode ts) hmac_ in
  find_token_in_message msg = Ok (Some token) /\
  (forall w tr g,
     m_guild msg = Some g -> u_bot (m_author msg) = false ->
     on_message msg w tr = take_action msg token w tr).
Proof.
  intros Hc Hpre Hend Hd Hn Hts Hv Hh Hpost token.
  assert (Hfound : find_token_in_message msg = Ok (Some token)).
  { apply (isolated_token_found msg pre _ _ _ post); auto.
    - apply token_part_encoded; [apply ascii_digits_bytes, Hd | apply Hd].
    - apply token_part_encoded; [exact Hts|].
      intros ->. simpl in Hv. lia.
    - split; cbn [user_id timestamp token].
      + apply is_valid_user_id_true. exists (decimal_value digits).
        split; [apply extract_user_id_encoded, Hd | exact Hn].
      + rewrite (is_valid_timestamp_encoded _ Hts). f_equal.
        apply bool_decide_eq_true_2. unfold TOKEN_EPOCH, DISCORD_EPOCH. lia. }
  split; [exact Hfound|]. intros w tr g Hg Hb.
  unfold on_message. rewrite Hg, Hb. simpl.
  unfold lift, mbind, Bot_bind. rewrite Hfound. reflexivity.
Qed.

Lemma genuine_token_found_witness :
  find_token_in_message sample_genuine = Ok (Some sample_token).
Proof.
  apply (genuine_token_found sample_genuine (pystr "key: ") (pystr "123")
           [94; 204; 145; 147]%N (pystr "abc-_=x") (pystr " (do not share)")).
  - reflexivity.
  - reflexivity.
  - apply head_in_not_continued. reflexivity.
  - apply isascii_isdigit_spec. reflexivity.
  - discriminate.
  - repeat constructor.
  - vm_compute. discriminate.
  - solve_token_part.
  - apply head_in_not_continued. reflexivity.
Defined.
